(** * HAN: heterogeneous graph attention network (openhgnn/models/HAN.py)

    A shallow embedding of the model-definition module: the metapath
    enumeration of [HAN.build_model_from_args], the constructors of [HAN]
    and [HANLayer], and the two forward passes with the layer's
    identity-keyed cache of metapath-projected subgraphs.

    Python exceptions are values of [result]; the mutable attributes of a
    layer are threaded explicitly through a small state-and-exception
    monad [py].  The numerical kernels (graph attention, semantic
    attention, the linear head), the metapath projection and the argument
    checks of the attention module's constructor belong to the tensor and
    graph libraries; they are the fields of the [Backend] class, and
    [BackendSpec] records the shape contracts the kernels obey. *)

From Stdlib Require Import QArith.
From stdpp Require Import base tactics option list strings gmap.

Open Scope string_scope.
Open Scope list_scope.

(** ** Exceptions and the state-and-exception monad *)

Inductive exn : Type :=
| KeyError
| IndexError
| ValueError (msg : string)
| ZeroDivisionError
| RuntimeError (msg : string)
| DGLError (msg : string).

Inductive result (A : Type) : Type :=
| Ok (a : A)
| Raise (e : exn).
Arguments Ok {A} a.
Arguments Raise {A} e.

#[global] Instance result_ret : MRet result := λ A a, Ok a.
#[global] Instance result_bind : MBind result := λ A B f r,
  match r with
  | Ok a => f a
  | Raise e => Raise e
  end.

(** A computation over a mutable state [S]: the state survives an
    exception, as attribute writes done before a [raise] do. *)
Definition py (S A : Type) : Type := S → result A * S.

#[global] Instance py_ret {S} : MRet (py S) := λ A a s, (Ok a, s).
#[global] Instance py_bind {S} : MBind (py S) := λ A B f m s,
  match m s with
  | (Ok a, s') => f a s'
  | (Raise e, s') => (Raise e, s')
  end.

Definition get {S} : py S S := λ s, (Ok s, s).
Definition modify {S} (f : S → S) : py S unit := λ s, (Ok (), f s).
Definition lift {S A} (r : result A) : py S A := λ s, (r, s).

(** [xs[i]] on a Python list, for a non-negative [i]. *)
Definition index {A} (xs : list A) (i : nat) : result A :=
  match xs !! i with
  | Some x => Ok x
  | None => Raise IndexError
  end.

(** [xs[-1]]. *)
Definition index_last {A} (xs : list A) : result A :=
  match last xs with
  | Some x => Ok x
  | None => Raise IndexError
  end.

(** ** Graph schema and metapaths *)

(** A canonical edge type is the triple (source category, relation name,
    destination category); [etype[0]] and [etype[2]] are its ends. *)
Definition canonical_etype : Type := string * string * string.
Definition et_src (e : canonical_etype) : string := e.1.1.
Definition et_rel (e : canonical_etype) : string := e.1.2.
Definition et_dst (e : canonical_etype) : string := e.2.

Definition metapath : Type := list canonical_etype.

(** The two nested loops of [build_model_from_args], with [mps] as the
    accumulator the source appends to. *)
Definition mps_inner (etype : canonical_etype) (etypes : list canonical_etype)
    (mps : list metapath) : list metapath :=
  foldl (λ mps dst_e,
    if decide (et_src etype = et_dst dst_e ∧ et_dst etype = et_src dst_e)
    then if decide (et_src etype ≠ et_dst etype)
         then mps ++ [[etype; dst_e]]
         else mps
    else mps) mps etypes.

Definition find_mps (etypes : list canonical_etype) (category : string)
    : list metapath :=
  foldl (λ mps etype,
    if decide (et_src etype = category)
    then mps_inner etype etypes mps
    else mps) [] etypes.

(** ** Tensors

    Every tensor of this module has the node axis first, so a tensor is
    kept as one flat block of scalars per node together with the shape of
    that block. *)

Record tensor (A : Type) : Type := Tensor {
  inner : list nat;
  rows : list (list A)
}.
Arguments Tensor {A} inner rows.
Arguments inner {A} t.
Arguments rows {A} t.

Definition product (dims : list nat) : nat := foldr Nat.mul 1 dims.

Definition shape {A} (t : tensor A) : list nat := length (rows t) :: inner t.

(** Every node block has as many scalars as the inner shape says. *)
Definition wf {A} (t : tensor A) : Prop :=
  Forall (λ r, length r = product (inner t)) (rows t).

Definition has_shape {A} (t : tensor A) (s : list nat) : Prop :=
  shape t = s ∧ wf t.

#[global] Instance wf_dec {A} (t : tensor A) : Decision (wf t).
Proof. unfold wf. apply _. Defined.

(** [t.flatten(1)]: every axis after the node axis is merged into one. *)
Definition flatten1 {A} (t : tensor A) : result (tensor A) :=
  match inner t with
  | [] => Raise IndexError
  | _ => Ok (Tensor [product (inner t)] (rows t))
  end.

(** [torch.stack(ts, dim=1)]: the [n]-th block of the result is the
    [n]-th blocks of the arguments, one after the other in list order. *)
Definition stack_rows {A} (ts : list (tensor A)) (N : nat) : list (list A) :=
  (λ n, concat ((λ t, default [] (rows t !! n)) <$> ts)) <$> seq 0 N.

Definition torch_stack1 {A} (ts : list (tensor A)) : result (tensor A) :=
  match ts with
  | [] => Raise (RuntimeError "stack expects a non-empty TensorList")
  | t0 :: _ =>
      if decide (Forall (λ t, shape t = shape t0) ts)
      then Ok (Tensor (length ts :: inner t0) (stack_rows ts (length (rows t0))))
      else Raise (RuntimeError "stack expects each tensor to be equal size")
  end.

(** [torch.unbind(z, dim=1)]: the slices of [z] along its second axis. *)
Definition unbind1 {A} (z : tensor A) : list (tensor A) :=
  match inner z with
  | [] => []
  | M :: rest =>
      (λ m, Tensor rest
              ((λ r, take (product rest) (drop (m * product rest) r)) <$> rows z))
        <$> seq 0 M
  end.

(** ** Graphs *)

(** The identity of a Python object; [is] compares these. *)
Definition obj_id : Type := positive.

(** A heterogeneous graph object: its identity, the number of nodes of
    every category, the edges of every canonical edge type, and the node
    feature storage [g.nodes[ntype].data[key]]. *)
Record hgraph (A : Type) : Type := HGraph {
  g_id : obj_id;
  g_num_nodes : gmap string nat;
  g_rels : list (canonical_etype * list (nat * nat));
  g_ndata : gmap string (gmap string (tensor A))
}.
Arguments HGraph {A} g_id g_num_nodes g_rels g_ndata.
Arguments g_id {A} h.
Arguments g_num_nodes {A} h.
Arguments g_rels {A} h.
Arguments g_ndata {A} h.

(** [hg.canonical_etypes] *)
Definition canonical_etypes {A} (hg : hgraph A) : list canonical_etype :=
  (g_rels hg).*1.

(** [g.nodes[ntype].data[key]] *)
Definition nodes_data {A} (g : hgraph A) (ntype key : string)
    : result (tensor A) :=
  match g_ndata g !! ntype with
  | None => Raise KeyError
  | Some d =>
      match d !! key with
      | None => Raise KeyError
      | Some t => Ok t
      end
  end.

(** A homogeneous graph, as a metapath projection returns it. *)
Record homograph : Type := HomoGraph {
  num_nodes : nat;
  edges : list (nat * nat)
}.

Definition in_degree (sg : homograph) (v : nat) : nat :=
  length (filter (λ e, e.2 = v) (edges sg)).

(** [(graph.in_degrees() == 0).any()] *)
Definition has_zero_in_degree (sg : homograph) : bool :=
  existsb (λ v, Nat.eqb (in_degree sg v) 0) (seq 0 (num_nodes sg)).

(** ** Sub-modules

    A module is its configuration together with the index of its block of
    learned parameters; constructors draw that index from a counter, so
    two modules built by one constructor run never share parameters. *)

Inductive activation_fn : Type := elu.

Record GATConv : Type := mkGATConv {
  in_feats : nat;
  out_feats : nat;
  gat_num_heads : nat;
  feat_drop : Q;
  attn_drop : Q;
  activation : option activation_fn;
  allow_zero_in_degree : bool;
  gat_params : nat
}.

Record SemanticAttention : Type := mkSemanticAttention {
  sa_in_size : nat;
  sa_params : nat
}.

Record Linear : Type := mkLinear {
  in_features : nat;
  out_features : nat;
  lin_params : nat
}.

(** The next free parameter block. *)
Definition fresh : py nat nat := λ n, (Ok n, S n).

(** ** The tensor and graph libraries *)

Class Backend : Type := {
  scalar : Type;
  (** the exception, if any, with which
      [GATConv.__init__(in_feats, out_feats, num_heads, feat_drop, attn_drop)]
      rejects its arguments *)
  gat_init_error : nat → nat → nat → Q → Q → option exn;
  (** [dgl.metapath_reachable_graph(g, meta_path)] *)
  metapath_reachable_graph : hgraph scalar → metapath → result homograph;
  (** the arithmetic of [GATConv.forward], [SemanticAttention.forward] and
      [nn.Linear.forward] on inputs that passed their checks *)
  gat_kernel : GATConv → homograph → tensor scalar → tensor scalar;
  semantic_kernel : SemanticAttention → tensor scalar → tensor scalar;
  linear_kernel : Linear → tensor scalar → tensor scalar
}.

(** The shapes the kernels return: (N, H, D) for graph attention over a
    graph of N nodes, (N, F) for semantic attention over (N, M, F), and
    (N, out) for the linear head over (N, in). *)
Class BackendSpec (B : Backend) : Prop := {
  gat_kernel_shape c sg h :
    has_shape (gat_kernel c sg h) [num_nodes sg; gat_num_heads c; out_feats c];
  semantic_kernel_shape a z N M F :
    shape z = [N; M; F] → has_shape (semantic_kernel a z) [N; F];
  linear_kernel_shape l x N :
    shape x = [N; in_features l] → has_shape (linear_kernel l x) [N; out_features l]
}.

(** Feature tensors and graphs over the scalars of the backend. *)
Abbreviation ftensor := (tensor scalar).
Abbreviation DGLGraph := (hgraph scalar).

(** The configuration object [args] handed to the model builder. *)
Module Args.
Record t : Type := mk {
  category : string;
  in_dim : nat;
  hidden_dim : nat;
  out_dim : nat;
  num_heads : list nat;
  dropout : Q
}.
End Args.

Section HAN.
Context `{B : Backend}.

(** [GATConv.forward(graph, feat)] of the graph library: the zero
    in-degree check comes first and is skipped when the module was built
    with [allow_zero_in_degree=True]; then the feature width and the node
    count are checked. *)
Definition GATConv_forward (conv : GATConv) (graph : homograph) (feat : ftensor)
    : result ftensor :=
  if negb (allow_zero_in_degree conv) && has_zero_in_degree graph
  then Raise (DGLError "There are 0-in-degree nodes in the graph")
  else if decide (inner feat = [in_feats conv])
  then if decide (length (rows feat) = num_nodes graph)
       then Ok (gat_kernel conv graph feat)
       else Raise (DGLError "Expect number of features to match number of nodes")
  else Raise (RuntimeError "mat1 and mat2 shapes cannot be multiplied").

(** Modelled from the spec: [SemanticAttention.forward] of
    [macro_layer/SemanticConv.py], which is not part of the sources at
    hand.  It accepts a tensor of shape (N, M, F) and returns one of shape
    (N, F). *)
Definition SemanticAttention_forward (sa : SemanticAttention) (z : ftensor)
    : result ftensor :=
  match inner z with
  | [M; F] => Ok (semantic_kernel sa z)
  | _ => Raise (RuntimeError "semantic attention expects a tensor of shape (N, M, F)")
  end.

(** [nn.Linear.forward] on the two-dimensional input the model feeds it. *)
Definition Linear_forward (lin : Linear) (x : ftensor) : result ftensor :=
  if decide (inner x = [in_features lin])
  then Ok (linear_kernel lin x)
  else Raise (RuntimeError "mat1 and mat2 shapes cannot be multiplied").

(** ** HANLayer *)

Record HANLayer : Type := mkHANLayer {
  gat_layers : list GATConv;
  semantic_attention : SemanticAttention;
  meta_paths : list metapath;
  _cached_graph : option obj_id;
  _cached_coalesced_graph : gmap metapath homograph
}.

(** [GATConv(in_feats, out_feats, num_heads, feat_drop, attn_drop,
    activation=..., allow_zero_in_degree=...)]: the library's constructor
    either rejects its arguments with an exception or returns a new module
    with parameters of its own. *)
Definition GATConv_init (in_feats out_feats num_heads : nat)
    (feat_drop attn_drop : Q) (activation : option activation_fn)
    (allow_zero_in_degree : bool) : py nat GATConv :=
  match gat_init_error in_feats out_feats num_heads feat_drop attn_drop with
  | Some e => lift (Raise e)
  | None =>
      p ← fresh;
      mret (mkGATConv in_feats out_feats num_heads feat_drop attn_drop
              activation allow_zero_in_degree p)
  end.

(** [for i in range(len(meta_paths)): self.gat_layers.append(GATConv(...))] *)
Fixpoint build_gat_layers (n : nat) (in_size out_size layer_num_heads : nat)
    (dropout : Q) : py nat (list GATConv) :=
  match n with
  | 0 => mret []
  | S n' =>
      conv ← GATConv_init in_size out_size layer_num_heads dropout dropout
                (Some elu) true;
      rest ← build_gat_layers n' in_size out_size layer_num_heads dropout;
      mret (conv :: rest)
  end.

Definition HANLayer_init (meta_paths : list metapath)
    (in_size out_size layer_num_heads : nat) (dropout : Q) : py nat HANLayer :=
  gats ← build_gat_layers (length meta_paths) in_size out_size layer_num_heads dropout;
  p ← fresh;
  mret (mkHANLayer gats (mkSemanticAttention (out_size * layer_num_heads) p)
          meta_paths None ∅).

(** The observable trace of the projection operation: one entry per call
    of [dgl.metapath_reachable_graph], with the graph it was called on. *)
Definition proj_log : Type := list (obj_id * metapath).

(** A layer object together with the projection trace. *)
Definition layer_st : Type := HANLayer * proj_log.

Definition set_cached_graph (v : option obj_id) (self : HANLayer) : HANLayer :=
  mkHANLayer (gat_layers self) (semantic_attention self) (meta_paths self)
    v (_cached_coalesced_graph self).

Definition set_cache (c : gmap metapath homograph) (self : HANLayer) : HANLayer :=
  mkHANLayer (gat_layers self) (semantic_attention self) (meta_paths self)
    (_cached_graph self) c.

Definition update_self (f : HANLayer → HANLayer) : py layer_st unit :=
  modify (prod_map f id).

Definition call_projection (g : DGLGraph) (meta_path : metapath)
    : py layer_st homograph :=
  λ st, (metapath_reachable_graph g meta_path, (st.1, st.2 ++ [(g_id g, meta_path)])).

(** [for meta_path in self.meta_paths:
       self._cached_coalesced_graph[meta_path] = dgl.metapath_reachable_graph(g, meta_path)] *)
Fixpoint project_all (g : DGLGraph) (mps : list metapath) : py layer_st unit :=
  match mps with
  | [] => mret ()
  | meta_path :: rest =>
      new_g ← call_projection g meta_path;
      update_self (λ self,
        set_cache (<[meta_path := new_g]> (_cached_coalesced_graph self)) self);;
      project_all g rest
  end.

(** [for i, meta_path in enumerate(self.meta_paths): ...], from index [i]
    on; the loop only reads the layer. *)
Fixpoint embed_loop (self : HANLayer) (h : ftensor) (i : nat) (mps : list metapath)
    : result (list ftensor) :=
  match mps with
  | [] => Ok []
  | meta_path :: rest =>
      new_g ← match _cached_coalesced_graph self !! meta_path with
              | Some sg => Ok sg
              | None => Raise KeyError
              end;
      conv ← index (gat_layers self) i;
      out ← GATConv_forward conv new_g h;
      emb ← flatten1 out;
      embs ← embed_loop self h (S i) rest;
      Ok (emb :: embs)
  end.

Definition semantic_embeddings (self : HANLayer) (h : ftensor)
    : result (list ftensor) :=
  embed_loop self h 0 (meta_paths self).

Definition HANLayer_forward (g : DGLGraph) (h : ftensor) : py layer_st ftensor :=
  st ← get;
  (if decide (_cached_graph st.1 = None ∨ _cached_graph st.1 ≠ Some (g_id g))
   then update_self (set_cached_graph (Some (g_id g)));;
        update_self (set_cache ∅);;
        project_all g (meta_paths st.1)
   else mret ());;
  st ← get;
  embs ← lift (semantic_embeddings st.1 h);
  z ← lift (torch_stack1 embs);
  lift (SemanticAttention_forward (semantic_attention st.1) z).

(** ** HAN *)

Record HAN : Type := mkHAN {
  category : string;
  layers : list HANLayer;
  linear : Linear
}.

(** [for l in range(1, len(num_heads)): self.layers.append(HANLayer(...))] *)
Fixpoint init_layers (ls : list nat) (meta_paths : list metapath)
    (hidden_size : nat) (num_heads : list nat) (dropout : Q)
    : py nat (list HANLayer) :=
  match ls with
  | [] => mret []
  | l :: ls' =>
      prev ← lift (index num_heads (l - 1));
      cur ← lift (index num_heads l);
      layer ← HANLayer_init meta_paths (hidden_size * prev) hidden_size cur dropout;
      rest ← init_layers ls' meta_paths hidden_size num_heads dropout;
      mret (layer :: rest)
  end.

Definition HAN_init (meta_paths : list metapath) (category : string)
    (in_size hidden_size out_size : nat) (num_heads : list nat) (dropout : Q)
    : py nat HAN :=
  first ← lift (index num_heads 0);
  layer0 ← HANLayer_init meta_paths in_size hidden_size first dropout;
  rest ← init_layers (seq 1 (length num_heads - 1)) meta_paths hidden_size
            num_heads dropout;
  final ← lift (index_last num_heads);
  p ← fresh;
  mret (mkHAN category (layer0 :: rest) (mkLinear (hidden_size * final) out_size p)).

Definition build_model_from_args (args : Args.t) (hg : DGLGraph) : py nat HAN :=
  let etypes := canonical_etypes hg in
  let mps := find_mps etypes (Args.category args) in
  HAN_init mps (Args.category args) (Args.in_dim args) (Args.hidden_dim args)
    (Args.out_dim args) (Args.num_heads args) (Args.dropout args).

(** A model object together with the projection trace. *)
Definition model_st : Type := HAN * proj_log.

(** [for gnn in self.layers: h = gnn(g, h)]; a layer that raises leaves
    the layers after it untouched. *)
Fixpoint forward_layers (g : DGLGraph) (ls : list HANLayer) (h : ftensor)
    (log : proj_log) : result ftensor * (list HANLayer * proj_log) :=
  match ls with
  | [] => (Ok h, ([], log))
  | gnn :: rest =>
      match HANLayer_forward g h (gnn, log) with
      | (Ok h', (gnn', log')) =>
          let '(r, (rest', log'')) := forward_layers g rest h' log' in
          (r, (gnn' :: rest', log''))
      | (Raise e, (gnn', log')) => (Raise e, (gnn' :: rest, log'))
      end
  end.

Definition with_layers {A}
    (f : list HANLayer → proj_log → result A * (list HANLayer * proj_log))
    : py model_st A :=
  λ st, let '(r, (ls', log')) := f (layers st.1) st.2 in
        (r, (mkHAN (category st.1) ls' (linear st.1), log')).

Definition HAN_forward (g : DGLGraph) (h : option ftensor)
    : py model_st (gmap string ftensor) :=
  st ← get;
  h ← lift (nodes_data g (category st.1) "h");
  h ← with_layers (λ ls, forward_layers g ls h);
  out ← lift (Linear_forward (linear st.1) h);
  mret {[ category st.1 := out ]}.

End HAN.

(** ** A small executable backend

    Integer scalars, relational composition for the metapath projection,
    and kernels that return tensors of the contracted shapes whose entries
    depend on the module's parameter block, on the graph and on the
    features, so that runs of the model can be evaluated and compared. *)
Module Demo.

Definition rel_edges (g : hgraph Z) (e : canonical_etype)
    : result (list (nat * nat)) :=
  match list_find (λ r, r.1 = e) (g_rels g) with
  | Some (_, r) => Ok r.2
  | None => Raise (DGLError "Edge type does not exist")
  end.

Definition compose (es1 es2 : list (nat * nat)) : list (nat * nat) :=
  remove_dups (e1 ← es1; e2 ← es2; if decide (e1.2 = e2.1) then [(e1.1, e2.2)] else []).

Fixpoint follow (g : hgraph Z) (es : list (nat * nat)) (mp : metapath)
    : result (list (nat * nat)) :=
  match mp with
  | [] => Ok es
  | e :: rest => es' ← rel_edges g e; follow g (compose es es') rest
  end.

Definition reachable (g : hgraph Z) (mp : metapath) : result homograph :=
  match mp with
  | [] => Raise (DGLError "empty metapath")
  | e :: rest =>
      es ← rel_edges g e;
      es' ← follow g (remove_dups es) rest;
      Ok (HomoGraph (default 0 (g_num_nodes g !! et_src e)) es')
  end.

Definition zsum (xs : list Z) : Z := foldr Z.add 0%Z xs.

Definition gat (c : GATConv) (sg : homograph) (h : tensor Z) : tensor Z :=
  Tensor [gat_num_heads c; out_feats c]
    ((λ v, replicate (product [gat_num_heads c; out_feats c])
             (Z.of_nat (gat_params c) +
              zsum ((λ e, if decide (e.2 = v)
                          then zsum (default [] (rows h !! e.1)) else 0%Z)
                    <$> edges sg))%Z)
     <$> seq 0 (num_nodes sg)).

Definition semantic (a : SemanticAttention) (z : tensor Z) : tensor Z :=
  match inner z with
  | [M; F] =>
      Tensor [F]
        ((λ r, (λ j, zsum ((λ m, default 0%Z (r !! (m * F + j))) <$> seq 0 M))
               <$> seq 0 F) <$> rows z)
  | _ => z
  end.

Definition dense (l : Linear) (x : tensor Z) : tensor Z :=
  Tensor [out_features l]
    ((λ r, replicate (out_features l) (Z.of_nat (lin_params l) + zsum r)%Z)
     <$> rows x).

(** Two rejections of the library's constructor: a dropout probability
    outside [0, 1] ([nn.Dropout] raises [ValueError]), and, checked later,
    an output width of zero, on which the initialisation of the attention
    parameters divides by zero. *)
Definition gat_check (in_feats out_feats num_heads : nat)
    (feat_drop attn_drop : Q) : option exn :=
  if Qle_bool 0 feat_drop && Qle_bool feat_drop 1 &&
     Qle_bool 0 attn_drop && Qle_bool attn_drop 1
  then if Nat.eqb out_feats 0 then Some ZeroDivisionError else None
  else Some (ValueError "dropout probability has to be between 0 and 1").

#[export] Instance backend : Backend := {|
  scalar := Z;
  gat_init_error := gat_check;
  metapath_reachable_graph := reachable;
  gat_kernel := gat;
  semantic_kernel := semantic;
  linear_kernel := dense
|}.

(** The scenario of the specification: authors write papers. *)
Definition write : canonical_etype := ("author", "write", "paper").
Definition written_by : canonical_etype := ("paper", "written-by", "author").

Definition author_features : tensor Z :=
  Tensor [4] [[1; 0; 0; 2]; [0; 1; 0; 0]; [0; 0; 1; 1]]%Z.

Definition acm (id : obj_id) : hgraph Z :=
  HGraph id
    {[ "author" := 3; "paper" := 2 ]}
    [ (write, [(0, 0); (1, 0); (1, 1)]);
      (written_by, [(0, 0); (0, 1); (1, 1)]) ]
    {[ "author" := {[ "h" := author_features ]} ]}.

Definition args : Args.t := Args.mk "author" 4 8 3 [2] (1 # 2).

(** A second graph, in which authors also belong to organisations and
    author 2 has neither a paper nor an organisation. *)
Definition affiliated : canonical_etype := ("author", "affiliated", "org").
Definition employs : canonical_etype := ("org", "employs", "author").

Definition dblp (id : obj_id) : hgraph Z :=
  HGraph id
    {[ "author" := 3; "paper" := 2; "org" := 1 ]}
    [ (write, [(0, 0); (1, 0); (1, 1)]);
      (written_by, [(0, 0); (0, 1); (1, 1)]);
      (affiliated, [(0, 0); (1, 0)]);
      (employs, [(0, 0); (0, 1)]) ]
    {[ "author" := {[ "h" := author_features ]} ]}.

(** A graph whose schema closes no metapath: papers are never linked back
    to their authors. *)
Definition one_way (id : obj_id) : hgraph Z :=
  HGraph id
    {[ "author" := 3; "paper" := 2 ]}
    [ (write, [(0, 0); (1, 0); (1, 1)]) ]
    {[ "author" := {[ "h" := author_features ]} ]}.

(** The layer [HANLayer([[write, written-by]], 4, 8, 2, 0.5)] and the
    layer over the two metapaths of [dblp], as constructed. *)
Definition layer1 : HANLayer :=
  mkHANLayer
    [mkGATConv 4 8 2 (1 # 2) (1 # 2) (Some elu) true 0]
    (mkSemanticAttention 16 1) [[write; written_by]] None ∅.

Definition layer2 : HANLayer :=
  mkHANLayer
    [mkGATConv 4 8 2 (1 # 2) (1 # 2) (Some elu) true 0;
     mkGATConv 4 8 2 (1 # 2) (1 # 2) (Some elu) true 1]
    (mkSemanticAttention 16 2)
    [[write; written_by]; [affiliated; employs]] None ∅.

(** The co-author graph: [dblp] projected along [write; written-by].
    Author 2 has no incoming edge in it. *)
Definition coauthors : homograph :=
  {| num_nodes := 3; edges := [(0, 0); (0, 1); (1, 0); (1, 1)] |}.

(** The model [build_model_from_args] returns for [args] over [acm]. *)
Definition model : HAN :=
  mkHAN "author" [layer1] (mkLinear 16 3 2).

End Demo.

(** * Properties *)

(** ** Metapath enumeration *)

(** The metapaths one outer iteration appends, as a comprehension. *)
Definition closing_hops (etype : canonical_etype) (etypes : list canonical_etype)
    : list metapath :=
  dst_e ← etypes;
  if decide (et_src etype = et_dst dst_e ∧ et_dst etype = et_src dst_e)
  then if decide (et_src etype ≠ et_dst etype) then [[etype; dst_e]] else []
  else [].

Lemma mps_inner_app etype etypes mps :
  mps_inner etype etypes mps = mps ++ closing_hops etype etypes.
Proof.
  unfold mps_inner, closing_hops.
  revert mps. induction etypes as [|d ds IH]; intros mps; simpl.
  - by rewrite app_nil_r.
  - rewrite IH. repeat case_decide; simpl; by rewrite <- ?app_assoc.
Qed.

Lemma find_mps_bind etypes category :
  find_mps etypes category =
  etype ← etypes;
  if decide (et_src etype = category) then closing_hops etype etypes else [].
Proof.
  unfold find_mps.
  enough (∀ l acc,
    foldl (λ mps etype, if decide (et_src etype = category)
                        then mps_inner etype etypes mps else mps) acc l =
    acc ++ (etype ← l;
            if decide (et_src etype = category)
            then closing_hops etype etypes else [])) as H by apply (H etypes []).
  induction l as [|e l IH]; intros acc; simpl.
  - by rewrite app_nil_r.
  - rewrite IH. case_decide; [rewrite mps_inner_app|]; simpl;
      by rewrite <- ?app_assoc.
Qed.

Lemma elem_of_closing_hops mp etype etypes :
  mp ∈ closing_hops etype etypes ↔
  ∃ dst_e, mp = [etype; dst_e] ∧ dst_e ∈ etypes ∧
           et_dst etype = et_src dst_e ∧ et_dst dst_e = et_src etype ∧
           et_src etype ≠ et_dst etype.
Proof.
  unfold closing_hops. rewrite list_elem_of_bind. split.
  - intros (d & Hin & Hd). repeat case_decide; set_solver.
  - intros (d & -> & Hd & H1 & H2 & H3). exists d. split; [|done].
    rewrite decide_True by (by split). rewrite decide_True by done. set_solver.
Qed.

Lemma elem_of_find_mps mp etypes category :
  mp ∈ find_mps etypes category ↔
  ∃ e1 e2, mp = [e1; e2] ∧ e1 ∈ etypes ∧ e2 ∈ etypes ∧
           et_src e1 = category ∧ et_dst e1 = et_src e2 ∧
           et_dst e2 = et_src e1 ∧ et_src e1 ≠ et_dst e1.
Proof.
  rewrite find_mps_bind, list_elem_of_bind. split.
  - intros (e1 & Hmp & He1). case_decide; [|set_solver].
    apply elem_of_closing_hops in Hmp as (e2 & ? & ? & ? & ? & ?).
    by exists e1, e2.
  - intros (e1 & e2 & -> & ? & ? & ? & ? & ? & ?). exists e1. split; [|done].
    rewrite decide_True by done. apply elem_of_closing_hops. by exists e2.
Qed.

Lemma NoDup_closing_hops etype etypes :
  NoDup etypes → NoDup (closing_hops etype etypes).
Proof.
  intros Hnd. unfold closing_hops. apply NoDup_bind; [| |done].
  - intros d1 d2 mp _ _ H1 H2. repeat case_decide; set_solver.
  - intros d _. repeat case_decide; try apply NoDup_nil_2. apply NoDup_singleton.
Qed.

Lemma NoDup_find_mps etypes category :
  NoDup etypes → NoDup (find_mps etypes category).
Proof.
  intros Hnd. rewrite find_mps_bind. apply NoDup_bind; [| |done].
  - intros e1 e2 mp _ _ H1 H2.
    case_decide; [|set_solver]. case_decide; [|set_solver].
    apply elem_of_closing_hops in H1 as (? & -> & _).
    apply elem_of_closing_hops in H2 as (? & [= ->] & _). done.
  - intros e _. case_decide; [by apply NoDup_closing_hops | apply NoDup_nil_2].
Qed.

Lemma find_mps_two_way (A B r1 r2 : string) :
  A ≠ B →
  find_mps [(A, r1, B); (B, r2, A)] A = [[(A, r1, B); (B, r2, A)]] ∧
  find_mps [(B, r2, A); (A, r1, B)] A = [[(A, r1, B); (B, r2, A)]].
Proof.
  intros Hne. unfold find_mps, mps_inner, et_src, et_dst. simpl.
  repeat (case_decide; simpl in *; try tauto; try congruence); naive_solver.
Qed.

(** ** Running the monads *)

Lemma result_bind_Ok {A C} (r : result A) (f : A → result C) (c : C) :
  r ≫= f = Ok c ↔ ∃ a, r = Ok a ∧ f a = Ok c.
Proof.
  destruct r as [a|e]; simpl; split.
  - intros ?. by exists a.
  - by intros (? & [= <-] & ?).
  - done.
  - by intros (? & ? & ?).
Qed.

Ltac py_unfold :=
  unfold mbind, mret, py_bind, py_ret, result_bind, result_ret,
    get, modify, lift, fresh in *.

(** ** Construction *)

(** The attention module [HANLayer.__init__] builds on parameter block [p]. *)
Definition gat_of (in_size out_size layer_num_heads : nat) (dropout : Q)
    (p : nat) : GATConv :=
  mkGATConv in_size out_size layer_num_heads dropout dropout (Some elu) true p.

(** What a layer built for the given metapaths and widths looks like, at
    construction and after any number of forward passes. *)
Record configured (mps : list metapath) (i o h : nat) (self : HANLayer) : Prop := {
  cfg_meta_paths : meta_paths self = mps;
  cfg_count : length (gat_layers self) = length mps;
  cfg_gat : Forall (λ c, in_feats c = i ∧ out_feats c = o ∧
                         gat_num_heads c = h ∧ allow_zero_in_degree c = true)
              (gat_layers self);
  cfg_sem : sa_in_size (semantic_attention self) = o * h
}.

(** The input width of layer [l]: [in_size] for the first layer,
    [hidden_size * num_heads[l-1]] for the others. *)
Definition layer_in_size (in_size hidden_size : nat) (num_heads : list nat)
    (l : nat) : nat :=
  match l with
  | 0 => in_size
  | S l' => hidden_size * default 0 (num_heads !! l')
  end.

(** A layer that has not run yet. *)
Definition unused (self : HANLayer) : Prop :=
  _cached_graph self = None ∧ _cached_coalesced_graph self = ∅.

(** What [HAN.__init__] builds. *)
Record built (mps : list metapath) (cat : string) (in_size hid out : nat)
    (nh : list nat) (m : HAN) : Prop := {
  built_category : category m = cat;
  built_count : length (layers m) = length nh;
  built_layers : ∀ l lay, layers m !! l = Some lay →
    ∃ cur, nh !! l = Some cur ∧
           configured mps (layer_in_size in_size hid nh l) hid cur lay;
  built_linear_in : ∃ final,
    last nh = Some final ∧ in_features (linear m) = hid * final;
  built_linear_out : out_features (linear m) = out
}.

Section init.
Context `{B : Backend}.

(** The library's constructor accepts the attention modules of a layer. *)
Definition gat_accepted (in_size out_size layer_num_heads : nat) (dropout : Q)
    : Prop :=
  gat_init_error in_size out_size layer_num_heads dropout dropout = None.

(** It accepts those of every layer of a model; a model without
    metapaths builds none. *)
Definition accepted (mps : list metapath) (in_size hid : nat) (nh : list nat)
    (dropout : Q) : Prop :=
  mps = [] ∨
  ∀ l cur, nh !! l = Some cur →
    gat_accepted (layer_in_size in_size hid nh l) hid cur dropout.

Lemma GATConv_init_accepted i o h d s :
  gat_accepted i o h d →
  GATConv_init i o h d d (Some elu) true s = (Ok (gat_of i o h d s), S s).
Proof. unfold GATConv_init, gat_accepted. by intros ->. Qed.

Lemma GATConv_init_rejected i o h d s e :
  gat_init_error i o h d d = Some e →
  GATConv_init i o h d d (Some elu) true s = (Raise e, s).
Proof. unfold GATConv_init. by intros ->. Qed.

Lemma build_gat_layers_spec n i o h d s :
  n = 0 ∨ gat_accepted i o h d →
  build_gat_layers n i o h d s = (Ok (gat_of i o h d <$> seq s n), s + n).
Proof.
  revert s. induction n as [|n IH]; intros s Hacc; simpl.
  - py_unfold. by rewrite Nat.add_0_r.
  - destruct Hacc as [|Hacc]; [done|]. py_unfold.
    rewrite GATConv_init_accepted by done. rewrite IH by (by right).
    by replace (s + S n) with (S s + n) by lia.
Qed.

Lemma build_gat_layers_rejected n i o h d s e :
  n ≠ 0 → gat_init_error i o h d d = Some e →
  build_gat_layers n i o h d s = (Raise e, s).
Proof.
  intros Hn He. destruct n as [|n]; [done|]. simpl. py_unfold.
  by rewrite (GATConv_init_rejected _ _ _ _ _ e).
Qed.

Lemma build_gat_layers_Ok n i o h d s gats s' :
  build_gat_layers n i o h d s = (Ok gats, s') →
  gats = gat_of i o h d <$> seq s n ∧ s' = s + n ∧
  (n = 0 ∨ gat_accepted i o h d).
Proof.
  intros Hrun.
  assert (n = 0 ∨ gat_accepted i o h d) as Hacc.
  { destruct n as [|n]; [by left|]. right. unfold gat_accepted.
    destruct (gat_init_error i o h d d) as [e|] eqn:He; [|done].
    by rewrite (build_gat_layers_rejected _ _ _ _ _ _ e) in Hrun. }
  rewrite build_gat_layers_spec in Hrun by done. by injection Hrun as <- <-.
Qed.

Lemma HANLayer_init_spec mps i o h d s :
  mps = [] ∨ gat_accepted i o h d →
  HANLayer_init mps i o h d s =
  (Ok (mkHANLayer (gat_of i o h d <$> seq s (length mps))
         (mkSemanticAttention (o * h) (s + length mps)) mps None ∅),
   S (s + length mps)).
Proof.
  intros Hacc. unfold HANLayer_init. py_unfold.
  rewrite build_gat_layers_spec; [done|].
  destruct Hacc as [->|]; [by left|by right].
Qed.

Lemma HANLayer_init_rejected mps i o h d s e :
  mps ≠ [] → gat_init_error i o h d d = Some e →
  HANLayer_init mps i o h d s = (Raise e, s).
Proof.
  intros Hne He. unfold HANLayer_init. py_unfold.
  rewrite (build_gat_layers_rejected _ _ _ _ _ _ e); [done| |done].
  by destruct mps.
Qed.

Lemma HANLayer_init_Ok mps i o h d s self s' :
  HANLayer_init mps i o h d s = (Ok self, s') →
  self = mkHANLayer (gat_of i o h d <$> seq s (length mps))
           (mkSemanticAttention (o * h) (s + length mps)) mps None ∅ ∧
  s' = S (s + length mps) ∧
  (mps = [] ∨ gat_accepted i o h d).
Proof.
  intros Hrun.
  assert (mps = [] ∨ gat_accepted i o h d) as Hacc.
  { destruct mps as [|mp mps]; [by left|]. right. unfold gat_accepted.
    destruct (gat_init_error i o h d d) as [e|] eqn:He; [|done].
    by rewrite (HANLayer_init_rejected _ _ _ _ _ _ e) in Hrun. }
  rewrite HANLayer_init_spec in Hrun by done. by injection Hrun as <- <-.
Qed.

Lemma HANLayer_init_configured mps i o h d s self s' :
  HANLayer_init mps i o h d s = (Ok self, s') →
  configured mps i o h self ∧
  _cached_graph self = None ∧ _cached_coalesced_graph self = ∅.
Proof.
  intros (-> & _ & _)%HANLayer_init_Ok. split; [split|]; simpl; try done.
  - by rewrite length_fmap, length_seq.
  - apply Forall_fmap, Forall_forall. by intros p _.
Qed.

(** The layers after the first, as the loop of [HAN.__init__] returns
    them. *)
Lemma init_layers_Ok ls mps hid nh d s lays s' :
  Forall (λ l, 0 < l) ls →
  init_layers ls mps hid nh d s = (Ok lays, s') →
  Forall2 (λ l lay, ∃ cur, nh !! l = Some cur ∧
             configured mps (layer_in_size 0 hid nh l) hid cur lay ∧
             unused lay ∧
             (mps = [] ∨ gat_accepted (layer_in_size 0 hid nh l) hid cur d))
    ls lays.
Proof.
  intros Hls. revert s lays s'.
  induction Hls as [|l ls Hl _ IH]; intros s lays s'.
  - intros [= <- <-]. constructor.
  - simpl. py_unfold. unfold index.
    destruct (nh !! (l - 1)) as [prev|] eqn:Hprev; [|done].
    destruct (nh !! l) as [cur|] eqn:Hcur; [|done].
    destruct (HANLayer_init mps (hid * prev) hid cur d s) as [[lay|e] s1] eqn:Hlay;
      [|done].
    destruct (init_layers ls mps hid nh d s1) as [[rest|e] s2] eqn:Hrest; [|done].
    intros [= <- <-]. constructor; [|by eapply IH].
    pose proof Hlay as (_ & _ & Hacc)%HANLayer_init_Ok.
    apply HANLayer_init_configured in Hlay as (Hcfg & Hunused).
    exists cur. destruct l as [|l']; [lia|]. simpl in *.
    rewrite Nat.sub_0_r in Hprev. rewrite Hprev. simpl. by split_and!.
Qed.

Lemma init_layers_spec ls mps hid nh d s :
  Forall (λ l, 0 < l < length nh) ls →
  (mps = [] ∨
   ∀ l cur, l ∈ ls → nh !! l = Some cur →
     gat_accepted (layer_in_size 0 hid nh l) hid cur d) →
  ∃ lays s', init_layers ls mps hid nh d s = (Ok lays, s').
Proof.
  intros Hls Hacc. revert s.
  induction Hls as [|l ls [Hl0 Hl] _ IH]; intros s.
  - by exists [], s.
  - destruct (lookup_lt_is_Some_2 nh (l - 1)) as [prev Hprev]; [lia|].
    destruct (lookup_lt_is_Some_2 nh l) as [cur Hcur]; [lia|].
    destruct IH with (s := S (s + length mps)) as (lays & s' & Hrest).
    { destruct Hacc as [|Hacc]; [by left|]. right. intros l' cur' Hl'.
      apply Hacc. set_solver. }
    eexists (_ :: lays), s'. simpl. py_unfold. unfold index.
    rewrite Hprev, Hcur. rewrite HANLayer_init_spec, Hrest; [done|].
    destruct Hacc as [|Hacc]; [by left|]. right.
    specialize (Hacc l cur ltac:(set_solver) Hcur).
    destruct l as [|l']; [lia|]. simpl in *.
    rewrite Nat.sub_0_r in Hprev. by rewrite Hprev in Hacc.
Qed.

(** A model [HAN.__init__] returns: its shape, and what its construction
    needed. *)
Lemma HAN_init_Ok mps cat in_size hid out nh d s m s' :
  HAN_init mps cat in_size hid out nh d s = (Ok m, s') →
  built mps cat in_size hid out nh m ∧ Forall unused (layers m) ∧
  nh ≠ [] ∧ accepted mps in_size hid nh d.
Proof.
  unfold HAN_init. py_unfold. unfold index.
  destruct (nh !! 0) as [h0|] eqn:Hfirst; [|done].
  destruct (HANLayer_init mps in_size hid h0 d s) as [[lay0|e] s1] eqn:Hlay;
    [|done].
  destruct (init_layers (seq 1 (length nh - 1)) mps hid nh d s1)
    as [[rest|e] s2] eqn:Hrest; [|done].
  unfold index_last. destruct (last nh) as [final|] eqn:Hlast; [|done].
  intros [= <- <-].
  pose proof Hlay as (_ & _ & Hacc0)%HANLayer_init_Ok.
  apply HANLayer_init_configured in Hlay as (Hcfg & Hunused).
  apply init_layers_Ok in Hrest; [|apply Forall_seq; intros; lia].
  assert (nh ≠ []) as Hne by (by destruct nh).
  assert (length nh = S (length nh - 1)) as Hlen by (destruct nh; simpl; [done|lia]).
  split_and!; [split|..]; simpl; try done.
  - apply Forall2_length in Hrest. rewrite length_seq in Hrest. lia.
  - intros l lay Hl. destruct l as [|l']; simpl in Hl.
    + injection Hl as <-. by exists h0.
    + eapply Forall2_lookup_r in Hrest as (j & Hj & cur & Hcur & Hc & _); [|done].
      apply lookup_seq in Hj as [-> _]. by exists cur.
  - by exists final.
  - constructor; [done|]. apply Forall_forall. intros lay Hin.
    apply list_elem_of_lookup in Hin as [k Hk].
    eapply Forall2_lookup_r in Hrest as (j & _ & cur & _ & _ & Hu & _); [|done].
    done.
  - destruct mps as [|mp mps]; [by left|]. right. intros l cur Hcur.
    destruct Hacc0 as [|Hacc0]; [done|].
    destruct l as [|l'].
    + simpl. rewrite Hfirst in Hcur. by injection Hcur as <-.
    + assert (seq 1 (length nh - 1) !! l' = Some (S l')) as Hseq.
      { apply lookup_seq. apply lookup_lt_Some in Hcur. split; [done|lia]. }
      eapply Forall2_lookup_l in Hrest as (lay & _ & cur' & Hcur' & _ & _ & Hacc);
        [|done].
      rewrite Hcur in Hcur'. injection Hcur' as <-.
      by destruct Hacc.
Qed.

Lemma HAN_init_spec mps cat in_size hid out nh d s :
  nh ≠ [] → accepted mps in_size hid nh d →
  ∃ m s', HAN_init mps cat in_size hid out nh d s = (Ok m, s') ∧
          built mps cat in_size hid out nh m ∧ Forall unused (layers m).
Proof.
  intros Hnh Hacc. destruct nh as [|h0 hs]; [done|].
  destruct (init_layers_spec (seq 1 (length (h0 :: hs) - 1)) mps hid (h0 :: hs)
              d (S (s + length mps))) as (lays & s' & Hrest).
  { apply Forall_seq. intros j Hj. simpl in *. lia. }
  { destruct Hacc as [|Hacc]; [by left|]. right. intros l cur Hl Hcur.
    apply elem_of_seq in Hl. specialize (Hacc l cur Hcur).
    destruct l as [|l']; [lia|]. done. }
  destruct (last (h0 :: hs)) as [final|] eqn:Hlast;
    [|by apply last_None in Hlast].
  assert (∃ m s', HAN_init mps cat in_size hid out (h0 :: hs) d s = (Ok m, s'))
    as (m & s1 & Hinit).
  { unfold HAN_init. py_unfold. unfold index, index_last. simpl "!!".
    cbv beta iota. rewrite HANLayer_init_spec, Hrest, Hlast; [by eexists _, _|].
    destruct Hacc as [|Hacc]; [by left|]. right. by apply (Hacc 0 h0). }
  exists m, s1. split; [done|].
  by apply HAN_init_Ok in Hinit as (? & ? & _).
Qed.

Lemma HAN_init_empty_heads mps cat in_size hid out d s :
  HAN_init mps cat in_size hid out [] d s = (Raise IndexError, s).
Proof. done. Qed.

Lemma HAN_init_built mps cat in_size hid out nh d s m s' :
  HAN_init mps cat in_size hid out nh d s = (Ok m, s') →
  built mps cat in_size hid out nh m ∧ Forall unused (layers m).
Proof. by intros (? & ? & _)%HAN_init_Ok. Qed.

(** The first layer whose attention modules the library rejects decides
    the exception of the constructor. *)
Lemma HAN_init_rejected mps cat in_size hid out nh d s l cur e :
  mps ≠ [] → nh !! l = Some cur →
  gat_init_error (layer_in_size in_size hid nh l) hid cur d d = Some e →
  (∀ l' cur', l' < l → nh !! l' = Some cur' →
     gat_accepted (layer_in_size in_size hid nh l') hid cur' d) →
  (HAN_init mps cat in_size hid out nh d s).1 = Raise e.
Proof.
  intros Hne Hcur He Hbefore.
  destruct (HAN_init mps cat in_size hid out nh d s) as [[m|e'] s'] eqn:Hinit.
  { apply HAN_init_Ok in Hinit as (_ & _ & _ & [|Hacc]); [done|].
    specialize (Hacc l cur Hcur). unfold gat_accepted in Hacc. congruence. }
  simpl. revert Hinit. unfold HAN_init. py_unfold. unfold index.
  destruct (nh !! 0) as [h0|] eqn:Hfirst;
    [|apply lookup_lt_Some in Hcur; apply lookup_ge_None in Hfirst; lia].
  destruct l as [|l].
  { simpl in He. rewrite Hfirst in Hcur. injection Hcur as ->.
    rewrite (HANLayer_init_rejected _ _ _ _ _ _ e) by done. by intros [= ->]. }
  rewrite HANLayer_init_spec by (right; by apply (Hbefore 0 h0); [lia|]).
  assert (∀ ls s0 j, ls = seq j (length ls) → (0 < j)%nat → (j ≤ S l)%nat →
            (S l < j + length ls)%nat →
            (init_layers ls mps hid nh d s0).1 = Raise e) as Hloop.
  { induction ls as [|k ls IH]; intros s0 j Hseq Hj Hle Hlt; [simpl in Hlt; lia|].
    simpl in Hseq. injection Hseq as -> Hseq. simpl. py_unfold. unfold index.
    destruct (lookup_lt_is_Some_2 nh (j - 1)) as [prev Hprev].
    { apply lookup_lt_Some in Hcur. lia. }
    rewrite Hprev.
    destruct (decide (j = S l)) as [->|Hnej].
    - rewrite Hcur. simpl in He, Hprev. rewrite Nat.sub_0_r in Hprev.
      rewrite Hprev in He. simpl in He.
      by rewrite (HANLayer_init_rejected _ _ _ _ _ _ e).
    - destruct (lookup_lt_is_Some_2 nh j) as [cj Hcj].
      { apply lookup_lt_Some in Hcur. lia. }
      rewrite Hcj.
      pose proof (Hbefore j cj ltac:(lia) Hcj) as Hacc.
      destruct j as [|j']; [lia|]. simpl in Hacc, Hprev.
      rewrite Nat.sub_0_r in Hprev. rewrite Hprev in Hacc. simpl in Hacc.
      rewrite HANLayer_init_spec by (by right).
      specialize (IH (S (s0 + length mps)) (S (S j')) Hseq ltac:(lia) ltac:(lia)
                    ltac:(simpl in Hlt; lia)).
      destruct (init_layers ls mps hid nh d (S (s0 + length mps)))
        as [[rest|e2] s2]; simpl in IH; [done|]. by rewrite IH. }
  specialize (Hloop (seq 1 (length nh - 1)) (S (s + length mps)) 1).
  rewrite length_seq in Hloop.
  specialize (Hloop eq_refl ltac:(lia) ltac:(lia)).
  apply lookup_lt_Some in Hcur.
  specialize (Hloop ltac:(lia)).
  destruct (init_layers (seq 1 (length nh - 1)) mps hid nh d (S (s + length mps)))
    as [[rest|e2] s2]; simpl in Hloop; [done|].
  intros [= <- _]. by injection Hloop as ->.
Qed.

End init.

(** ** Tensor operations *)

Section tensors.
Context {A : Type}.
Implicit Types (t z : tensor A) (ts : list (tensor A)).

Lemma flatten1_Ok t e :
  flatten1 t = Ok e → inner t ≠ [] ∧ e = Tensor [product (inner t)] (rows t).
Proof. unfold flatten1. destruct (inner t); naive_solver. Qed.

Lemma flatten1_shape t e s0 s1 rest :
  flatten1 t = Ok e → has_shape t (s0 :: s1 :: rest) →
  has_shape e [s0; product (s1 :: rest)].
Proof.
  intros [_ ->]%flatten1_Ok [Hs Hwf]. injection Hs as Hn Hi.
  split; unfold shape, wf in *; simpl; rewrite Hi in *.
  - by rewrite Hn.
  - eapply Forall_impl; [done|]. simpl. intros r ->. lia.
Qed.

(** The [m]-th of equally long chunks laid end to end. *)
Lemma chunk_concat (ls : list (list A)) P m x :
  Forall (λ l, length l = P) ls → ls !! m = Some x →
  take P (drop (m * P) (concat ls)) = x.
Proof.
  intros Hls. revert m. induction Hls as [|l ls Hl _ IH]; intros m Hm; [done|].
  destruct m as [|m]; simpl in *.
  - injection Hm as ->. subst P. by rewrite drop_0, take_app_length.
  - rewrite <- drop_drop. subst P. rewrite drop_app_length. by apply IH.
Qed.

Lemma torch_stack1_Ok ts z :
  torch_stack1 ts = Ok z →
  ∃ t0, head ts = Some t0 ∧ Forall (λ t, shape t = shape t0) ts ∧
        z = Tensor (length ts :: inner t0) (stack_rows ts (length (rows t0))).
Proof.
  unfold torch_stack1. destruct ts as [|t0 ts']; [done|].
  case_decide; [|done]. intros [= <-]. by exists t0.
Qed.

Lemma torch_stack1_empty : torch_stack1 (@nil (tensor A)) =
  Raise (RuntimeError "stack expects a non-empty TensorList").
Proof. done. Qed.

Lemma torch_stack1_uniform ts s0 rest :
  ts ≠ [] → Forall (λ t, shape t = s0 :: rest) ts →
  ∃ z, torch_stack1 ts = Ok z ∧ shape z = s0 :: length ts :: rest.
Proof.
  intros Hne Hts. destruct ts as [|t0 ts']; [done|].
  pose proof (Forall_inv Hts) as H0. unfold torch_stack1.
  rewrite decide_True.
  - eexists. split; [done|]. unfold shape, stack_rows in *. simpl.
    rewrite length_fmap, length_seq. by injection H0 as -> ->.
  - eapply Forall_impl; [done|]. simpl. intros t ->. done.
Qed.

Lemma stack_rows_row ts N n :
  n < N →
  stack_rows ts N !! n = Some (concat ((λ t, default [] (rows t !! n)) <$> ts)).
Proof.
  intros Hn. unfold stack_rows. rewrite list_lookup_fmap.
  by rewrite lookup_seq_lt.
Qed.

Lemma row_length t n s0 rest :
  has_shape t (s0 :: rest) → n < s0 →
  length (default [] (rows t !! n)) = product rest.
Proof.
  intros [Hs Hwf] Hn. unfold shape in Hs. injection Hs as HN Hi.
  destruct (lookup_lt_is_Some_2 (rows t) n) as [r Hr]; [lia|].
  rewrite Hr. simpl. unfold wf in Hwf. rewrite Forall_lookup in Hwf.
  rewrite (Hwf _ _ Hr). by rewrite Hi.
Qed.

Lemma stack_row_length ts n s0 rest :
  n < s0 → Forall (λ t, has_shape t (s0 :: rest)) ts →
  length (concat ((λ t, default [] (rows t !! n)) <$> ts)) =
  length ts * product rest.
Proof.
  intros Hn. induction 1 as [|t ts Ht _ IH]; [done|]. simpl.
  rewrite length_app. f_equal; [by eapply row_length | apply IH].
Qed.

Lemma torch_stack1_shape ts z s0 rest :
  torch_stack1 ts = Ok z → Forall (λ t, has_shape t (s0 :: rest)) ts →
  has_shape z (s0 :: length ts :: rest).
Proof.
  intros (t0 & Hhd & Hsame & ->)%torch_stack1_Ok Hts.
  assert (shape t0 = s0 :: rest) as H0.
  { destruct ts; [done|]. injection Hhd as ->. by destruct (Forall_inv Hts). }
  unfold shape in H0. injection H0 as HN Hin.
  split; unfold shape, wf, stack_rows; simpl.
  - by rewrite length_fmap, length_seq, HN, Hin.
  - apply Forall_fmap, Forall_forall. intros n Hn%elem_of_seq. simpl.
    rewrite Hin. eapply stack_row_length; [|done]. lia.
Qed.

(** Unbinding a stack along the stacking axis gives the stacked tensors
    back, in the order they were given. *)
Lemma unbind1_torch_stack1 ts z s0 rest :
  torch_stack1 ts = Ok z → Forall (λ t, has_shape t (s0 :: rest)) ts →
  unbind1 z = ts.
Proof.
  intros (t0 & Hhd & Hsame & ->)%torch_stack1_Ok Hts.
  assert (shape t0 = s0 :: rest) as H0.
  { destruct ts; [done|]. injection Hhd as ->. by destruct (Forall_inv Hts). }
  unfold shape in H0. injection H0 as HN Hin.
  unfold unbind1. simpl. rewrite Hin, HN.
  apply list_eq. intros m. rewrite list_lookup_fmap.
  destruct (ts !! m) as [t|] eqn:Hm.
  - rewrite lookup_seq_lt by (by eapply lookup_lt_Some). simpl. f_equal.
    rewrite Forall_lookup in Hts. destruct (Hts _ _ Hm) as [Ht Hwf].
    unfold shape in Ht. injection Ht as HtN Hti.
    destruct t as [ti tr]. simpl in *. subst ti. f_equal.
    unfold stack_rows. rewrite <- list_fmap_compose.
    apply list_eq. intros n. rewrite list_lookup_fmap.
    destruct (decide (n < s0)) as [Hn|Hn].
    + rewrite lookup_seq_lt by done. simpl.
      destruct (lookup_lt_is_Some_2 tr n) as [r Hr]; [lia|]. rewrite Hr. f_equal.
      apply chunk_concat.
      * apply Forall_fmap, Forall_forall. intros t' Ht'. simpl.
        apply list_elem_of_lookup in Ht' as [k Hk].
        eapply row_length; [by apply (Hts _ _ Hk)|done].
      * rewrite list_lookup_fmap, Hm. simpl. by rewrite Hr.
    + rewrite lookup_seq_ge by lia. simpl. symmetry.
      apply lookup_ge_None. lia.
  - rewrite lookup_seq_ge; [done|]. by apply lookup_ge_None.
Qed.

End tensors.

(** ** The layer's forward pass *)

Definition to_option {A} (r : result A) : option A :=
  match r with
  | Ok a => Some a
  | Raise _ => None
  end.

Section layer.
Context `{B : Backend}.
Implicit Types (self : HANLayer) (g : DGLGraph) (h : ftensor) (log : proj_log).

(** What [forward] computes once the cache is settled. *)
Definition combine self h : result ftensor :=
  embs ← semantic_embeddings self h;
  z ← torch_stack1 embs;
  SemanticAttention_forward (semantic_attention self) z.

(** The layer as it enters the projection loop on a cache miss. *)
Definition invalidated self g : HANLayer :=
  set_cache ∅ (set_cached_graph (Some (g_id g)) self).

Lemma HANLayer_forward_hit g h self log :
  _cached_graph self = Some (g_id g) →
  HANLayer_forward g h (self, log) = (combine self h, (self, log)).
Proof.
  intros Hhit. unfold HANLayer_forward, combine. py_unfold. simpl.
  rewrite decide_False by (rewrite Hhit; naive_solver).
  cbn [fst snd]. destruct (semantic_embeddings self h) as [embs|]; [|done].
  destruct (torch_stack1 embs); done.
Qed.

Lemma HANLayer_forward_miss g h self log :
  _cached_graph self ≠ Some (g_id g) →
  HANLayer_forward g h (self, log) =
  match project_all g (meta_paths self) (invalidated self g, log) with
  | (Ok _, st') => (combine st'.1 h, st')
  | (Raise e, st') => (Raise e, st')
  end.
Proof.
  intros Hmiss. unfold HANLayer_forward, combine, update_self. py_unfold. simpl.
  rewrite decide_True by (by right).
  cbn [fst snd]. fold (invalidated self g).
  destruct (project_all g (meta_paths self) (invalidated self g, log))
    as [[[]|e] st']; [|done].
  destruct (semantic_embeddings st'.1 h) as [embs|]; [|done].
  destruct (torch_stack1 embs); done.
Qed.

Lemma project_all_cons g mp rest self log :
  project_all g (mp :: rest) (self, log) =
  match metapath_reachable_graph g mp with
  | Ok new_g =>
      project_all g rest
        (set_cache (<[mp := new_g]> (_cached_coalesced_graph self)) self,
         log ++ [(g_id g, mp)])
  | Raise e => (Raise e, (self, log ++ [(g_id g, mp)]))
  end.
Proof.
  simpl. unfold call_projection, update_self. py_unfold. simpl.
  by destruct (metapath_reachable_graph g mp).
Qed.

(** The projection loop writes the cache and nothing else, and calls the
    projection on a prefix of the metapaths, once each and in order. *)
Lemma project_all_frame g mps self log r self' log' :
  project_all g mps (self, log) = (r, (self', log')) →
  gat_layers self' = gat_layers self ∧
  semantic_attention self' = semantic_attention self ∧
  meta_paths self' = meta_paths self ∧
  _cached_graph self' = _cached_graph self ∧
  ∃ k, (k ≤ length mps)%nat ∧ log' = log ++ ((λ mp, (g_id g, mp)) <$> take k mps).
Proof.
  revert self log. induction mps as [|mp rest IH]; intros self log.
  - intros [= <- <- <-]. repeat split; try done. exists 0.
    by rewrite app_nil_r.
  - rewrite project_all_cons.
    destruct (metapath_reachable_graph g mp) as [new_g|e].
    + intros (? & ? & ? & ? & k & Hk & ->)%IH. repeat split; try done.
      exists (S k). split; [simpl; lia|]. by rewrite <- app_assoc.
    + intros [= <- <- <-]. repeat split; try done. exists 1.
      split; [simpl; lia|]. by destruct rest.
Qed.

(** When no projection raises, every metapath is projected once and the
    cache ends up holding exactly the new projections on top of what it
    held before. *)
Lemma project_all_Ok g mps self log :
  Forall (λ mp, ∃ sg, metapath_reachable_graph g mp = Ok sg) mps →
  ∃ self',
    project_all g mps (self, log) =
      (Ok (), (self', log ++ ((λ mp, (g_id g, mp)) <$> mps))) ∧
    ∀ mp, _cached_coalesced_graph self' !! mp =
          if decide (mp ∈ mps) then to_option (metapath_reachable_graph g mp)
          else _cached_coalesced_graph self !! mp.
Proof.
  intros Hmps. revert self log.
  induction Hmps as [|mp rest [sg Hsg] _ IH]; intros self log.
  - exists self. split; [by rewrite app_nil_r|]. intros mp.
    by rewrite decide_False by set_solver.
  - destruct (IH (set_cache (<[mp := sg]> (_cached_coalesced_graph self)) self)
                 (log ++ [(g_id g, mp)])) as (self' & Hrun & Hcache).
    exists self'. split.
    { rewrite project_all_cons, Hsg. cbv beta iota.
      etrans; [apply Hrun|]. by rewrite <- app_assoc. }
    intros k. rewrite Hcache. simpl.
    destruct (decide (k ∈ rest)) as [Hk|Hk].
    + by rewrite decide_True by set_solver.
    + destruct (decide (k = mp)) as [->|Hne].
      * rewrite decide_True by set_solver. by rewrite lookup_insert_eq, Hsg.
      * rewrite decide_False by set_solver. by rewrite lookup_insert_ne.
Qed.

(** [forward] never touches the sub-modules or the metapath list, and it
    always leaves the layer keyed to the graph it was called with. *)
Lemma HANLayer_forward_frame g h self log r self' log' :
  HANLayer_forward g h (self, log) = (r, (self', log')) →
  gat_layers self' = gat_layers self ∧
  semantic_attention self' = semantic_attention self ∧
  meta_paths self' = meta_paths self ∧
  _cached_graph self' = Some (g_id g).
Proof.
  destruct (decide (_cached_graph self = Some (g_id g))) as [Hhit|Hmiss].
  - rewrite HANLayer_forward_hit by done. by intros [= <- <- <-].
  - rewrite HANLayer_forward_miss by done.
    destruct (project_all g (meta_paths self) (invalidated self g, log))
      as [r0 [self0 log0]] eqn:Hproj.
    apply project_all_frame in Hproj as (? & ? & ? & ? & _).
    destruct r0; intros [= <- <- <-]; done.
Qed.

End layer.

(** ** The attention branches *)

Section branches.
Context `{B : Backend}.
Implicit Types (self : HANLayer) (g : DGLGraph) (h : ftensor) (log : proj_log).

Lemma GATConv_forward_Ok conv sg h out :
  GATConv_forward conv sg h = Ok out →
  (allow_zero_in_degree conv = true ∨ has_zero_in_degree sg = false) ∧
  inner h = [in_feats conv] ∧ length (rows h) = num_nodes sg ∧
  out = gat_kernel conv sg h.
Proof.
  unfold GATConv_forward.
  destruct (allow_zero_in_degree conv), (has_zero_in_degree sg); simpl;
    repeat case_decide; naive_solver.
Qed.

Lemma GATConv_forward_allow conv sg h :
  allow_zero_in_degree conv = true →
  inner h = [in_feats conv] → length (rows h) = num_nodes sg →
  GATConv_forward conv sg h = Ok (gat_kernel conv sg h).
Proof.
  intros Ha Hi Hn. unfold GATConv_forward. rewrite Ha. simpl.
  by rewrite !decide_True.
Qed.

Lemma GATConv_forward_zero_in_degree conv sg h :
  allow_zero_in_degree conv = false → has_zero_in_degree sg = true →
  GATConv_forward conv sg h =
  Raise (DGLError "There are 0-in-degree nodes in the graph").
Proof. intros Ha Hz. unfold GATConv_forward. by rewrite Ha, Hz. Qed.

(** One iteration of the embedding loop: the [i]-th module over the cached
    projection of [meta_path], flattened. *)
Definition branch self h (i : nat) (meta_path : metapath) : result ftensor :=
  match _cached_coalesced_graph self !! meta_path with
  | None => Raise KeyError
  | Some new_g =>
      conv ← index (gat_layers self) i;
      out ← GATConv_forward conv new_g h;
      flatten1 out
  end.

Lemma embed_loop_cons self h i mp rest :
  embed_loop self h i (mp :: rest) =
  emb ← branch self h i mp;
  embs ← embed_loop self h (S i) rest;
  Ok (emb :: embs).
Proof.
  simpl. unfold branch.
  destruct (_cached_coalesced_graph self !! mp); [|done]. simpl.
  destruct (index (gat_layers self) i) as [conv|]; [|done]. simpl.
  destruct (GATConv_forward conv h0 h); done.
Qed.

Lemma branch_Ok self h i mp emb :
  branch self h i mp = Ok emb ↔
  ∃ sg conv out,
    _cached_coalesced_graph self !! mp = Some sg ∧
    gat_layers self !! i = Some conv ∧
    GATConv_forward conv sg h = Ok out ∧ flatten1 out = Ok emb.
Proof.
  unfold branch, index. split.
  - destruct (_cached_coalesced_graph self !! mp) as [sg|]; [|done].
    destruct (gat_layers self !! i) as [conv|]; [|done]. simpl.
    destruct (GATConv_forward conv sg h) as [out|] eqn:Hout; [|done]. simpl.
    intros. by exists sg, conv, out.
  - intros (sg & conv & out & -> & -> & Hout & Hemb). simpl.
    by rewrite Hout.
Qed.

(** The embeddings come out in the order of the metapaths: each one is the
    branch of its own index in [enumerate(self.meta_paths)]. *)
Lemma embed_loop_Ok self h i mps embs :
  embed_loop self h i mps = Ok embs ↔
  Forall2 (λ km emb, branch self h km.1 km.2 = Ok emb)
    (zip (seq i (length mps)) mps) embs.
Proof.
  revert i embs. induction mps as [|mp rest IH]; intros i embs.
  - simpl. split; [intros [= <-]; constructor | by intros ->%Forall2_nil_inv_l].
  - rewrite embed_loop_cons. simpl. split.
    + intros (emb & Hemb & (embs' & Hrest & [= <-])%result_bind_Ok)%result_bind_Ok.
      constructor; [done|]. by apply IH.
    + intros (emb & embs' & Hemb & Hrest & ->)%Forall2_cons_inv_l.
      simpl in Hemb. rewrite Hemb. simpl.
      apply IH in Hrest. by rewrite Hrest.
Qed.

Lemma embed_loop_lookup self h mps embs k mp :
  embed_loop self h 0 mps = Ok embs → mps !! k = Some mp →
  ∃ emb, embs !! k = Some emb ∧ branch self h k mp = Ok emb.
Proof.
  intros Hall%embed_loop_Ok Hk.
  assert (zip (seq 0 (length mps)) mps !! k = Some (k, mp)) as Hz.
  { apply lookup_zip_with_Some. exists k, mp. split; [done|]. split; [|done].
    apply lookup_seq. split; [done|]. by eapply lookup_lt_Some. }
  destruct (Forall2_lookup_l _ _ _ _ _ Hall Hz) as (emb & Hemb & Hb).
  by exists emb.
Qed.

Lemma embed_loop_length self h i mps embs :
  embed_loop self h i mps = Ok embs → length embs = length mps.
Proof.
  intros Hall%embed_loop_Ok. apply Forall2_length in Hall.
  rewrite length_zip_with, length_seq in Hall. lia.
Qed.

End branches.

(** ** Shapes through a layer *)

Section shapes.
Context `{B : Backend} `{!BackendSpec B}.
Implicit Types (self : HANLayer) (g : DGLGraph) (h : ftensor) (log : proj_log).

Lemma branch_shape self h i mp emb conv :
  branch self h i mp = Ok emb → gat_layers self !! i = Some conv →
  has_shape emb [length (rows h); out_feats conv * gat_num_heads conv].
Proof.
  intros (sg & conv' & out & _ & Hconv & Hout & Hemb)%branch_Ok Hi.
  rewrite Hi in Hconv. injection Hconv as <-.
  apply GATConv_forward_Ok in Hout as (_ & _ & -> & ->).
  pose proof (gat_kernel_shape conv sg h) as Hk.
  pose proof (flatten1_shape _ _ _ _ _ Hemb Hk) as He.
  replace (out_feats conv * gat_num_heads conv)
    with (product [gat_num_heads conv; out_feats conv]); [done|].
  simpl. lia.
Qed.

Lemma SemanticAttention_forward_Ok sa (z out : ftensor) :
  SemanticAttention_forward sa z = Ok out →
  ∃ M F, inner z = [M; F] ∧ out = semantic_kernel sa z ∧
         has_shape out [length (rows z); F].
Proof.
  unfold SemanticAttention_forward.
  destruct (inner z) as [|M [|F [|]]] eqn:Hin; try done.
  intros [= <-]. exists M, F. split; [done|]. split; [done|].
  eapply semantic_kernel_shape. unfold shape. by rewrite Hin.
Qed.

Lemma Linear_forward_Ok lin (x out : ftensor) :
  Linear_forward lin x = Ok out →
  inner x = [in_features lin] ∧ out = linear_kernel lin x ∧
  has_shape out [length (rows x); out_features lin].
Proof.
  unfold Linear_forward. case_decide as Hin; [|done]. intros [= <-].
  split; [done|]. split; [done|].
  apply linear_kernel_shape. unfold shape. by rewrite Hin.
Qed.

Lemma embeddings_shape mps i o hd self h embs :
  configured mps i o hd self → semantic_embeddings self h = Ok embs →
  length embs = length mps ∧
  Forall (λ e, has_shape e [length (rows h); o * hd]) embs.
Proof.
  intros Hcfg Hembs. unfold semantic_embeddings in Hembs.
  rewrite (cfg_meta_paths _ _ _ _ _ Hcfg) in Hembs.
  split; [by eapply embed_loop_length|].
  apply embed_loop_Ok in Hembs. apply Forall_lookup. intros k e Hk.
  destruct (Forall2_lookup_r _ _ _ _ _ Hembs Hk) as ([k' mp] & Hz & Hb).
  apply lookup_zip_with_Some in Hz as (? & ? & [= <- <-] & Hseq & _).
  apply lookup_seq in Hseq as [-> _]. simpl in Hb.
  pose proof Hb as (_ & conv & _ & _ & Hconv & _)%branch_Ok.
  pose proof (cfg_gat _ _ _ _ _ Hcfg) as Hall.
  rewrite Forall_lookup in Hall. destruct (Hall _ _ Hconv) as (_ & <- & <- & _).
  by eapply branch_shape.
Qed.

(** Every value a successful [forward] computes on the way, with its
    shape: the embeddings, their stack, and the combined output. *)
Lemma combine_Ok mps i o hd self h out :
  configured mps i o hd self → combine self h = Ok out →
  ∃ embs z,
    semantic_embeddings self h = Ok embs ∧
    length embs = length mps ∧ mps ≠ [] ∧
    Forall (λ e, has_shape e [length (rows h); o * hd]) embs ∧
    torch_stack1 embs = Ok z ∧
    has_shape z [length (rows h); length mps; o * hd] ∧
    unbind1 z = embs ∧
    SemanticAttention_forward (semantic_attention self) z = Ok out ∧
    has_shape out [length (rows h); o * hd].
Proof.
  intros Hcfg. unfold combine.
  intros (embs & Hembs & (z & Hz & Hout)%result_bind_Ok)%result_bind_Ok.
  destruct (embeddings_shape _ _ _ _ _ _ _ Hcfg Hembs) as [Hlen Hshapes].
  pose proof (torch_stack1_shape _ _ _ _ Hz Hshapes) as Hzs.
  rewrite Hlen in Hzs.
  exists embs, z. split_and!; try done.
  - intros ->. destruct embs; [|done]. by rewrite torch_stack1_empty in Hz.
  - by eapply unbind1_torch_stack1.
  - destruct (SemanticAttention_forward_Ok _ _ _ Hout) as (M & F & Hin & _ & Ho).
    destruct Hzs as [Hs _]. unfold shape in Hs. rewrite Hin in Hs.
    injection Hs as Hn _ HF. by rewrite Hn, HF in Ho.
Qed.

(** A successful [forward] keeps the node axis, whatever the layer. *)
Lemma combine_rows self h out :
  combine self h = Ok out → length (rows out) = length (rows h).
Proof.
  unfold combine.
  intros (embs & Hembs & (z & Hz & Hout)%result_bind_Ok)%result_bind_Ok.
  destruct (SemanticAttention_forward_Ok _ _ _ Hout) as (M & F & _ & _ & [Ho _]).
  unfold shape in Ho. injection Ho as ->.
  apply torch_stack1_Ok in Hz as (e0 & Hhd & _ & ->). simpl.
  unfold stack_rows. rewrite length_fmap, length_seq.
  destruct embs as [|e embs']; [done|]. injection Hhd as ->.
  unfold semantic_embeddings in Hembs.
  destruct (meta_paths self) as [|mp rest]; [done|].
  rewrite embed_loop_cons in Hembs.
  apply result_bind_Ok in Hembs as (e' & Hb & (? & _ & [= -> _])%result_bind_Ok).
  apply branch_Ok in Hb as (sg & conv & o & _ & _ & Ho & [_ ->]%flatten1_Ok).
  apply GATConv_forward_Ok in Ho as (_ & _ & -> & ->). simpl.
  by destruct (gat_kernel_shape conv sg h) as [[= ->] _].
Qed.

Lemma embed_loop_total self h i mps :
  (∀ k mp, mps !! k = Some mp → ∃ emb, branch self h (i + k) mp = Ok emb) →
  ∃ embs, embed_loop self h i mps = Ok embs.
Proof.
  revert i. induction mps as [|mp rest IH]; intros i Hall; [by exists []|].
  destruct (Hall 0 mp) as [emb Hemb]; [done|]. rewrite Nat.add_0_r in Hemb.
  destruct (IH (S i)) as [embs Hembs].
  { intros k mp' Hk. destruct (Hall (S k) mp' Hk) as [e He]. exists e.
    by rewrite Nat.add_succ_comm. }
  exists (emb :: embs). by rewrite embed_loop_cons, Hemb, Hembs.
Qed.

(** With every metapath cached over the nodes the features describe, and
    features of the configured width, the layer returns. *)
Lemma combine_total mps i o hd self h :
  configured mps i o hd self → mps ≠ [] → inner h = [i] →
  (∀ mp, mp ∈ mps →
     ∃ sg, _cached_coalesced_graph self !! mp = Some sg ∧
           num_nodes sg = length (rows h)) →
  ∃ out, combine self h = Ok out.
Proof.
  intros Hcfg Hne Hin Hcache.
  destruct (embed_loop_total self h 0 mps) as [embs Hembs].
  { intros k mp Hk. simpl.
    destruct (Hcache mp) as (sg & Hsg & Hn); [by eapply list_elem_of_lookup_2|].
    destruct (lookup_lt_is_Some_2 (gat_layers self) k) as [conv Hconv].
    { rewrite (cfg_count _ _ _ _ _ Hcfg). by eapply lookup_lt_Some. }
    pose proof (cfg_gat _ _ _ _ _ Hcfg) as Hall. rewrite Forall_lookup in Hall.
    destruct (Hall _ _ Hconv) as (Hci & _ & _ & Haz).
    eexists. apply branch_Ok. exists sg, conv, (gat_kernel conv sg h).
    split_and!; try done.
    - apply GATConv_forward_allow; [done|by rewrite Hci|done].
    - unfold flatten1.
      by destruct (gat_kernel_shape conv sg h) as [[= _ ->] _]. }
  assert (semantic_embeddings self h = Ok embs) as Hsem.
  { unfold semantic_embeddings. by rewrite (cfg_meta_paths _ _ _ _ _ Hcfg). }
  destruct (embeddings_shape _ _ _ _ _ _ _ Hcfg Hsem) as [Hlen Hshapes].
  destruct (torch_stack1_uniform embs (length (rows h)) [o * hd])
    as (z & Hz & Hzs).
  { intros ->. by destruct mps. }
  { eapply Forall_impl; [done|]. by intros e [? _]. }
  unfold combine. rewrite Hsem. simpl. rewrite Hz. simpl.
  unfold SemanticAttention_forward. unfold shape in Hzs.
  injection Hzs as _ ->. by eexists.
Qed.

End shapes.

(** ** Forward passes that return *)

Section forward.
Context `{B : Backend} `{!BackendSpec B}.
Implicit Types (self : HANLayer) (g : DGLGraph) (h : ftensor) (log : proj_log).

Lemma configured_frame mps i o hd self self' :
  gat_layers self' = gat_layers self →
  semantic_attention self' = semantic_attention self →
  meta_paths self' = meta_paths self →
  configured mps i o hd self → configured mps i o hd self'.
Proof. intros Hg Hs Hm [? ? ? ?]. split; by rewrite ?Hg, ?Hs, ?Hm. Qed.

(** Whatever [forward] returns was computed from the layer it leaves
    behind. *)
Lemma HANLayer_forward_Ok g h self log out st' :
  HANLayer_forward g h (self, log) = (Ok out, st') → combine st'.1 h = Ok out.
Proof.
  destruct (decide (_cached_graph self = Some (g_id g))) as [Hhit|Hmiss].
  - rewrite HANLayer_forward_hit by done. by intros [= ? <-].
  - rewrite HANLayer_forward_miss by done.
    destruct (project_all g (meta_paths self) (invalidated self g, log))
      as [[[]|e] st0]; [|done]. by intros [= ? <-].
Qed.

Lemma HANLayer_forward_configured mps i o hd g h self log r self' log' :
  HANLayer_forward g h (self, log) = (r, (self', log')) →
  configured mps i o hd self → configured mps i o hd self'.
Proof.
  intros (? & ? & ? & _)%HANLayer_forward_frame. by apply configured_frame.
Qed.

(** A layer that is not keyed to [g] projects every metapath once and
    returns, provided the projections succeed over the nodes the features
    describe and the features have the configured width. *)
Lemma HANLayer_forward_total mps i o hd g h self log :
  configured mps i o hd self → _cached_graph self ≠ Some (g_id g) →
  mps ≠ [] → inner h = [i] →
  (∀ mp, mp ∈ mps →
     ∃ sg, metapath_reachable_graph g mp = Ok sg ∧
           num_nodes sg = length (rows h)) →
  ∃ out self',
    HANLayer_forward g h (self, log) =
      (Ok out, (self', log ++ ((λ mp, (g_id g, mp)) <$> mps))) ∧
    has_shape out [length (rows h); o * hd].
Proof.
  intros Hcfg Hmiss Hne Hin Hproj.
  rewrite HANLayer_forward_miss by done.
  rewrite (cfg_meta_paths _ _ _ _ _ Hcfg).
  destruct (project_all_Ok g mps (invalidated self g) log)
    as (self' & Hrun & Hcache).
  { apply Forall_forall. intros mp Hmp. destruct (Hproj mp Hmp) as (sg & ? & _).
    by exists sg. }
  rewrite Hrun. cbn [fst snd].
  pose proof Hrun as (Hg & Hs & Hm & _)%project_all_frame.
  assert (configured mps i o hd self') as Hcfg'.
  { eapply configured_frame; [| | |exact Hcfg]; by rewrite ?Hg, ?Hs, ?Hm. }
  destruct (combine_total mps i o hd self' h) as [out Hout]; try done.
  { intros mp Hmp. destruct (Hproj mp Hmp) as (sg & Hsg & Hn). exists sg.
    split; [|done]. by rewrite Hcache, decide_True, Hsg. }
  exists out, self'. rewrite Hout. split; [done|].
  by destruct (combine_Ok _ _ _ _ _ _ _ Hcfg' Hout)
    as (? & ? & _ & _ & _ & _ & _ & _ & _ & _ & ?).
Qed.

(** *** The stack of layers *)

Lemma forward_layers_cons g lay rest h log :
  forward_layers g (lay :: rest) h log =
  match HANLayer_forward g h (lay, log) with
  | (Ok h', (lay', log')) =>
      match forward_layers g rest h' log' with
      | (r, (rest', log'')) => (r, (lay' :: rest', log''))
      end
  | (Raise e, (lay', log')) => (Raise e, (lay' :: rest, log'))
  end.
Proof.
  simpl. destruct (HANLayer_forward g h (lay, log)) as [[h'|e] [lay' log']];
    [|done].
  by destruct (forward_layers g rest h' log') as [r [rest' log'']].
Qed.

(** The layers keep their number, their sub-modules and their metapaths. *)
Lemma forward_layers_frame g ls h log r ls' log' :
  forward_layers g ls h log = (r, (ls', log')) →
  Forall2 (λ lay lay', gat_layers lay' = gat_layers lay ∧
                       semantic_attention lay' = semantic_attention lay ∧
                       meta_paths lay' = meta_paths lay) ls ls'.
Proof.
  revert h log r ls' log'. induction ls as [|lay rest IH]; intros h log r ls' log'.
  - intros [= <- <- <-]. constructor.
  - rewrite forward_layers_cons.
    destruct (HANLayer_forward g h (lay, log)) as [[h'|e] [lay' log1]] eqn:Hlay;
      apply HANLayer_forward_frame in Hlay as (? & ? & ? & _).
    + destruct (forward_layers g rest h' log1) as [r1 [rest' log2]] eqn:Hrest.
      intros [= <- <- <-]. constructor; [done|]. by eapply IH.
    + intros [= <- <- <-]. constructor; [done|].
      apply Forall_Forall2_diag, Forall_forall. by intros.
Qed.

(** The features keep their node axis through the whole stack. *)
Lemma forward_layers_rows g ls h log hL st' :
  forward_layers g ls h log = (Ok hL, st') →
  length (rows hL) = length (rows h).
Proof.
  revert h log st'. induction ls as [|lay rest IH]; intros h log st'.
  - by intros [= <- <-].
  - rewrite forward_layers_cons.
    destruct (HANLayer_forward g h (lay, log)) as [[h'|e] [lay' log1]] eqn:Hlay;
      [|done].
    apply HANLayer_forward_Ok, combine_rows in Hlay. rewrite <- Hlay.
    destruct (forward_layers g rest h' log1) as [r1 [rest' log2]] eqn:Hrest.
    intros [= -> _]. by eapply IH.
Qed.

(** An exception raised by a layer ends the loop at once: it is the result
    of the loop, and the layers after it are left as they were. *)
Lemma forward_layers_raise g ls1 lay ls2 h log hk ls1' logk e lay' log' :
  forward_layers g ls1 h log = (Ok hk, (ls1', logk)) →
  HANLayer_forward g hk (lay, logk) = (Raise e, (lay', log')) →
  forward_layers g (ls1 ++ lay :: ls2) h log =
  (Raise e, (ls1' ++ lay' :: ls2, log')).
Proof.
  revert h log ls1'. induction ls1 as [|l0 ls1 IH]; intros h log ls1'.
  - intros [= -> <- ->] Hlay. simpl app. by rewrite forward_layers_cons, Hlay.
  - rewrite forward_layers_cons. simpl app. rewrite forward_layers_cons.
    destruct (HANLayer_forward g h (l0, log)) as [[h'|e0] [l0' log1]]; [|done].
    destruct (forward_layers g ls1 h' log1) as [r1 [rest' log2]] eqn:Hrest.
    intros [= -> <- ->] Hlay. by rewrite (IH _ _ _ Hrest Hlay).
Qed.

End forward.

(** ** The model's forward pass *)

Section model.
Context `{B : Backend} `{!BackendSpec B}.
Implicit Types (self : HAN) (g : DGLGraph) (h : ftensor) (log : proj_log).

(** The model a run over its layers leaves behind. *)
Definition with_new_layers self (ls' : list HANLayer) : HAN :=
  mkHAN (category self) ls' (linear self).

Lemma HAN_forward_unfold g hopt self log :
  HAN_forward g hopt (self, log) =
  match nodes_data g (category self) "h" with
  | Raise e => (Raise e, (self, log))
  | Ok h0 =>
      match forward_layers g (layers self) h0 log with
      | (Raise e, (ls', log')) => (Raise e, (with_new_layers self ls', log'))
      | (Ok hL, (ls', log')) =>
          match Linear_forward (linear self) hL with
          | Ok out =>
              (Ok {[ category self := out ]}, (with_new_layers self ls', log'))
          | Raise e => (Raise e, (with_new_layers self ls', log'))
          end
      end
  end.
Proof.
  unfold HAN_forward, with_layers. py_unfold. cbn [fst snd].
  destruct (nodes_data g (category self) "h") as [h0|]; [|done].
  destruct (forward_layers g (layers self) h0 log) as [[hL|e] [ls' log']];
    [|done].
  by destruct (Linear_forward (linear self) hL).
Qed.

(** A result of [HAN.forward] is the one-entry mapping from the category
    to the linear head of the last layer's output, computed from the
    features stored on the graph. *)
Lemma HAN_forward_Ok g hopt self log res st' :
  HAN_forward g hopt (self, log) = (Ok res, st') →
  ∃ h0 hL out,
    nodes_data g (category self) "h" = Ok h0 ∧
    (forward_layers g (layers self) h0 log).1 = Ok hL ∧
    Linear_forward (linear self) hL = Ok out ∧
    res = {[ category self := out ]} ∧
    has_shape out [length (rows h0); out_features (linear self)].
Proof.
  rewrite HAN_forward_unfold.
  destruct (nodes_data g (category self) "h") as [h0|]; [|done].
  destruct (forward_layers g (layers self) h0 log) as [[hL|e] [ls' log']] eqn:Hls;
    [|done].
  destruct (Linear_forward (linear self) hL) as [out|] eqn:Hlin; [|done].
  intros [= <- <-]. exists h0, hL, out. split_and!; try done.
  { by rewrite Hls. }
  destruct (Linear_forward_Ok _ _ _ Hlin) as (_ & _ & Hout).
  by rewrite (forward_layers_rows _ _ _ _ _ _ Hls) in Hout.
Qed.

Lemma forward_layers_total mps in_size hid nh g ls l0 h log :
  mps ≠ [] →
  (∀ k lay, ls !! k = Some lay →
     ∃ cur, nh !! (l0 + k) = Some cur ∧
            configured mps (layer_in_size in_size hid nh (l0 + k)) hid cur lay ∧
            _cached_graph lay ≠ Some (g_id g)) →
  inner h = [layer_in_size in_size hid nh l0] →
  (∀ mp, mp ∈ mps →
     ∃ sg, metapath_reachable_graph g mp = Ok sg ∧
           num_nodes sg = length (rows h)) →
  ∃ hL st',
    forward_layers g ls h log = (Ok hL, st') ∧
    inner hL = [layer_in_size in_size hid nh (l0 + length ls)].
Proof.
  intros Hne. revert l0 h log.
  induction ls as [|lay rest IH]; intros l0 h log Hls Hin Hproj.
  - exists h, ([], log). by rewrite Nat.add_0_r.
  - destruct (Hls 0 lay) as (cur & Hcur & Hcfg & Hmiss); [done|].
    rewrite Nat.add_0_r in Hcur, Hcfg.
    destruct (HANLayer_forward_total _ _ _ _ g h lay log Hcfg Hmiss Hne Hin Hproj)
      as (out & lay' & Hlay & [Hs _]).
    unfold shape in Hs. injection Hs as Hrows Hinner.
    destruct (IH (S l0) out (log ++ ((λ mp, (g_id g, mp)) <$> mps)))
      as (hL & [rest' log'] & Hrest & HL).
    + intros k lay0 Hk. destruct (Hls (S k) lay0 Hk) as (c & ? & ? & ?).
      exists c. by replace (S l0 + k) with (l0 + S k) by lia.
    + rewrite Hinner. simpl. by rewrite Hcur.
    + by rewrite Hrows.
    + exists hL, (lay' :: rest', log').
      rewrite forward_layers_cons, Hlay, Hrest. split; [done|].
      rewrite HL. simpl length. by replace (S l0 + length rest) with (l0 + S (length rest)) by lia.
Qed.

(** A model as [HAN.__init__] builds it, none of whose layers is keyed to
    [g], returns on [g] when the graph stores features of width [in_size]
    for the category and every metapath projects onto those nodes. *)
Lemma HAN_forward_total mps cat in_size hid out_size nh g hopt self log h0 :
  built mps cat in_size hid out_size nh self →
  Forall (λ lay, _cached_graph lay ≠ Some (g_id g)) (layers self) →
  mps ≠ [] →
  nodes_data g cat "h" = Ok h0 → inner h0 = [in_size] →
  (∀ mp, mp ∈ mps →
     ∃ sg, metapath_reachable_graph g mp = Ok sg ∧
           num_nodes sg = length (rows h0)) →
  ∃ out st',
    HAN_forward g hopt (self, log) = (Ok {[ cat := out ]}, st') ∧
    has_shape out [length (rows h0); out_size].
Proof.
  intros [Hcat Hcount Hlayers (final & Hlast & Hlin) Hout] Hfresh Hne Hh0 Hin Hproj.
  destruct (forward_layers_total mps in_size hid nh g (layers self) 0 h0 log)
    as (hL & [ls' log'] & Hls & HL); try done.
  { intros k lay Hk. destruct (Hlayers k lay Hk) as (cur & ? & ?).
    exists cur. split_and!; try done.
    rewrite Forall_lookup in Hfresh. by eapply Hfresh. }
  assert (inner hL = [in_features (linear self)]) as HinL.
  { rewrite HL, Hlin, Hcount. simpl. rewrite last_lookup in Hlast.
    destruct (length nh) as [|n] eqn:Hn; simpl in *.
    - apply lookup_lt_Some in Hlast. lia.
    - by rewrite Hlast. }
  rewrite HAN_forward_unfold, Hcat, Hh0, Hls.
  unfold Linear_forward. rewrite decide_True by done.
  eexists _, _. split; [done|].
  rewrite <- Hout, <- (forward_layers_rows _ _ _ _ _ _ Hls).
  apply linear_kernel_shape. unfold shape. by rewrite HinL.
Qed.

End model.

(** ** The cache and the failure paths *)

Section cache.
Context `{B : Backend}.
Implicit Types (g : DGLGraph) (h : ftensor) (log : proj_log).

(** On a layer keyed to [g], [forward] changes nothing at all. *)
Lemma HANLayer_forward_again g h (self : HANLayer) log :
  _cached_graph self = Some (g_id g) →
  (HANLayer_forward g h (self, log)).2 = (self, log).
Proof. intros Hhit. by rewrite HANLayer_forward_hit. Qed.

(** On a layer not keyed to [g], [forward] projects every metapath once,
    in order, keys the layer to [g] and leaves in the cache the new
    projections and nothing else. *)
Lemma HANLayer_forward_other g h (self : HANLayer) log :
  _cached_graph self ≠ Some (g_id g) →
  Forall (λ mp, ∃ sg, metapath_reachable_graph g mp = Ok sg) (meta_paths self) →
  (HANLayer_forward g h (self, log)).2.2 =
    log ++ ((λ mp, (g_id g, mp)) <$> meta_paths self) ∧
  _cached_graph (HANLayer_forward g h (self, log)).2.1 = Some (g_id g) ∧
  ∀ mp, _cached_coalesced_graph (HANLayer_forward g h (self, log)).2.1 !! mp =
        if decide (mp ∈ meta_paths self)
        then to_option (metapath_reachable_graph g mp) else None.
Proof.
  intros Hmiss Hproj. rewrite HANLayer_forward_miss by done.
  destruct (project_all_Ok g (meta_paths self) (invalidated self g) log Hproj)
    as (self' & Hrun & Hcache).
  rewrite Hrun. cbn [fst snd].
  apply project_all_frame in Hrun as (_ & _ & _ & Hkey & _).
  split; [done|]. split; [done|]. intros mp. rewrite Hcache. simpl.
  by rewrite lookup_empty.
Qed.

(** A layer without metapaths raises when it stacks its embeddings, and
    calls no projection on the way. *)
Lemma HANLayer_forward_empty g h (self : HANLayer) log :
  meta_paths self = [] →
  (HANLayer_forward g h (self, log)).1 =
    Raise (RuntimeError "stack expects a non-empty TensorList") ∧
  (HANLayer_forward g h (self, log)).2.2 = log.
Proof.
  intros Hmps.
  destruct (decide (_cached_graph self = Some (g_id g))) as [Hhit|Hmiss].
  - rewrite HANLayer_forward_hit by done. simpl.
    unfold combine, semantic_embeddings. by rewrite Hmps.
  - rewrite HANLayer_forward_miss by done. rewrite Hmps. simpl.
    unfold combine, semantic_embeddings. simpl. by rewrite Hmps.
Qed.

(** The chain of layer computations behind a run of the stack: every
    layer, in list order, applied to the output of the one before it. *)
Fixpoint chain (ls : list HANLayer) (h : ftensor) : result ftensor :=
  match ls with
  | [] => Ok h
  | lay :: rest => h' ← combine lay h; chain rest h'
  end.

Lemma forward_layers_chain g ls h log hL ls' log' :
  forward_layers g ls h log = (Ok hL, (ls', log')) → chain ls' h = Ok hL.
Proof.
  revert h log ls'. induction ls as [|lay rest IH]; intros h log ls'.
  - by intros [= <- <- <-].
  - rewrite forward_layers_cons.
    destruct (HANLayer_forward g h (lay, log)) as [[h'|e] [lay' log1]] eqn:Hlay;
      [|done].
    destruct (forward_layers g rest h' log1) as [r1 [rest' log2]] eqn:Hrest.
    intros [= -> <- <-]. apply HANLayer_forward_Ok in Hlay. simpl in *.
    rewrite Hlay. simpl. by eapply IH.
Qed.

(** An exception raised by any layer is the result of the model's forward
    pass: nothing catches it, and no later layer and no linear head runs. *)
Lemma HAN_forward_raise g hopt (self : HAN) log h0 ls1 lay ls2 hk ls1' logk e
    lay' log' :
  layers self = ls1 ++ lay :: ls2 →
  nodes_data g (category self) "h" = Ok h0 →
  forward_layers g ls1 h0 log = (Ok hk, (ls1', logk)) →
  HANLayer_forward g hk (lay, logk) = (Raise e, (lay', log')) →
  HAN_forward g hopt (self, log) =
  (Raise e, (mkHAN (category self) (ls1' ++ lay' :: ls2) (linear self), log')).
Proof.
  intros Hls Hh0 Hbefore Hlay.
  rewrite HAN_forward_unfold, Hh0, Hls.
  by rewrite (forward_layers_raise _ _ _ _ _ _ _ _ _ _ _ _ Hbefore Hlay).
Qed.

End cache.

(** ** Failing steps and repeated passes *)

Section passes.
Context `{B : Backend}.
Implicit Types (self : HANLayer) (g : DGLGraph) (h : ftensor) (log : proj_log).

Lemma project_all_Ok_inv g mps self log u st' :
  project_all g mps (self, log) = (Ok u, st') →
  Forall (λ mp, ∃ sg, metapath_reachable_graph g mp = Ok sg) mps.
Proof.
  revert self log. induction mps as [|mp rest IH]; intros self log;
    [by constructor|].
  rewrite project_all_cons.
  destruct (metapath_reachable_graph g mp) as [sg|e] eqn:Hsg; [|done].
  intros Hrest%IH. constructor; [by exists sg|done].
Qed.

(** The projection loop over a prefix whose projections succeed. *)
Lemma project_all_app g pre post self log :
  Forall (λ mp, ∃ sg, metapath_reachable_graph g mp = Ok sg) pre →
  ∃ c,
    project_all g (pre ++ post) (self, log) =
      project_all g post (set_cache c self, log ++ ((λ mp, (g_id g, mp)) <$> pre)) ∧
    ∀ mp, c !! mp =
          if decide (mp ∈ pre) then to_option (metapath_reachable_graph g mp)
          else _cached_coalesced_graph self !! mp.
Proof.
  intros Hpre. revert self log.
  induction Hpre as [|mp pre [sg Hsg] _ IH]; intros self log.
  - exists (_cached_coalesced_graph self). split.
    + destruct self. by rewrite app_nil_r.
    + intros mp. by rewrite decide_False by set_solver.
  - destruct (IH (set_cache (<[mp := sg]> (_cached_coalesced_graph self)) self)
                 (log ++ [(g_id g, mp)])) as (c & Hrun & Hc).
    exists c. split.
    { simpl app. rewrite project_all_cons, Hsg. cbv beta iota.
      etrans; [apply Hrun|]. by rewrite <- app_assoc. }
    intros k. rewrite Hc. simpl.
    destruct (decide (k ∈ pre)) as [Hk|Hk].
    + by rewrite decide_True by set_solver.
    + destruct (decide (k = mp)) as [->|Hne].
      * rewrite decide_True by set_solver. by rewrite lookup_insert_eq, Hsg.
      * rewrite decide_False by set_solver. by rewrite lookup_insert_ne.
Qed.

(** A forward pass whose projection loop raises at [mp]. *)
Lemma HANLayer_forward_fail g h self log pre mp post e :
  meta_paths self = pre ++ mp :: post →
  _cached_graph self ≠ Some (g_id g) →
  Forall (λ m, ∃ sg, metapath_reachable_graph g m = Ok sg) pre →
  metapath_reachable_graph g mp = Raise e →
  ∃ c,
    HANLayer_forward g h (self, log) =
      (Raise e,
       (set_cache c (set_cached_graph (Some (g_id g)) self),
        log ++ ((λ m, (g_id g, m)) <$> pre ++ [mp]))) ∧
    ∀ m, c !! m =
         if decide (m ∈ pre) then to_option (metapath_reachable_graph g m)
         else None.
Proof.
  intros Hmps Hmiss Hpre Hmp. rewrite HANLayer_forward_miss by done.
  rewrite Hmps.
  destruct (project_all_app g pre (mp :: post) (invalidated self g) log Hpre)
    as (c & -> & Hc).
  rewrite project_all_cons, Hmp. exists c. split.
  - by rewrite fmap_app, app_assoc.
  - intros m. rewrite Hc. simpl. by rewrite lookup_empty.
Qed.

Lemma failed_not_among g pre mp e :
  Forall (λ m, ∃ sg, metapath_reachable_graph g m = Ok sg) pre →
  metapath_reachable_graph g mp = Raise e → mp ∉ pre.
Proof.
  intros Hpre Hmp Hin. rewrite Forall_forall in Hpre.
  destruct (Hpre mp Hin) as [sg Hsg]. congruence.
Qed.

(** Once the cache step is over, the result of the pass is that of the
    embedding loop, the stack and the combiner on the layer it left. *)
Lemma HANLayer_forward_settled g h self log :
  _cached_graph self = Some (g_id g) ∨
  Forall (λ mp, ∃ sg, metapath_reachable_graph g mp = Ok sg) (meta_paths self) →
  (HANLayer_forward g h (self, log)).1 =
  combine (HANLayer_forward g h (self, log)).2.1 h.
Proof.
  intros Hsettled.
  destruct (decide (_cached_graph self = Some (g_id g))) as [Hhit|Hmiss].
  - by rewrite HANLayer_forward_hit.
  - destruct Hsettled as [|Hproj]; [done|].
    rewrite HANLayer_forward_miss by done.
    destruct (project_all_Ok g (meta_paths self) (invalidated self g) log Hproj)
      as (self' & -> & _).
    done.
Qed.

(** The first iteration of the embedding loop that raises ends it. *)
Lemma embed_loop_raise self h i mps k mp e :
  mps !! k = Some mp →
  (∀ j mpj, j < k → mps !! j = Some mpj →
     ∃ emb, branch self h (i + j) mpj = Ok emb) →
  branch self h (i + k) mp = Raise e →
  embed_loop self h i mps = Raise e.
Proof.
  revert i k. induction mps as [|m rest IH]; intros i k Hk Hbefore Hraise;
    [done|].
  rewrite embed_loop_cons. destruct k as [|k]; simpl in Hk.
  - injection Hk as ->. rewrite Nat.add_0_r in Hraise. by rewrite Hraise.
  - destruct (Hbefore 0 m) as [emb Hemb]; [lia|done|].
    rewrite Nat.add_0_r in Hemb. rewrite Hemb. simpl.
    rewrite (IH (S i) k); [done|done| |].
    + intros j mpj Hj Hmpj. destruct (Hbefore (S j) mpj) as [emb' Hemb'];
        [lia|done|].
      exists emb'. by replace (S i + j) with (i + S j) by lia.
    + by replace (S i + k) with (i + S k) by lia.
Qed.

(** A pass calls the projection on a prefix of the metapaths, once
    each, or not at all. *)
Lemma HANLayer_forward_calls g h self log :
  ∃ k, (k ≤ length (meta_paths self))%nat ∧
       (HANLayer_forward g h (self, log)).2.2 =
       log ++ ((λ mp, (g_id g, mp)) <$> take k (meta_paths self)).
Proof.
  destruct (decide (_cached_graph self = Some (g_id g))) as [Hhit|Hmiss].
  - rewrite HANLayer_forward_hit by done. exists 0. split; [lia|].
    by rewrite take_0, app_nil_r.
  - rewrite HANLayer_forward_miss by done.
    destruct (project_all g (meta_paths self) (invalidated self g, log))
      as [r [self' log']] eqn:Hp.
    apply project_all_frame in Hp as (_ & _ & _ & _ & k & Hk & ->).
    exists k. split; [done|]. by destruct r.
Qed.

(** A model is run again and again, the caller carrying on after a pass
    that raises. *)
Fixpoint HAN_forward_seq (calls : list (DGLGraph * option ftensor))
    (st : model_st) : model_st :=
  match calls with
  | [] => st
  | (g, hopt) :: rest => HAN_forward_seq rest (HAN_forward g hopt st).2
  end.

(** A model with layers, none of which has a metapath. *)
Definition no_metapaths (m : HAN) : Prop :=
  layers m ≠ [] ∧ Forall (λ lay, meta_paths lay = []) (layers m).

Lemma HAN_forward_no_metapaths g hopt (m : HAN) log h0 :
  no_metapaths m → nodes_data g (category m) "h" = Ok h0 →
  (HAN_forward g hopt (m, log)).1 =
    Raise (RuntimeError "stack expects a non-empty TensorList") ∧
  (HAN_forward g hopt (m, log)).2.2 = log.
Proof.
  intros [Hne Hall] Hh0. rewrite HAN_forward_unfold, Hh0.
  destruct (layers m) as [|lay rest] eqn:Hls; [done|].
  apply Forall_inv in Hall. rewrite forward_layers_cons.
  destruct (HANLayer_forward_empty g h0 lay log Hall) as [Hr Hlog].
  destruct (HANLayer_forward g h0 (lay, log)) as [r [lay' log']].
  simpl in Hr, Hlog. by subst.
Qed.

Lemma HAN_forward_keeps g hopt (m : HAN) log :
  category (HAN_forward g hopt (m, log)).2.1 = category m ∧
  linear (HAN_forward g hopt (m, log)).2.1 = linear m ∧
  Forall2 (λ lay lay', gat_layers lay' = gat_layers lay ∧
                       semantic_attention lay' = semantic_attention lay ∧
                       meta_paths lay' = meta_paths lay)
    (layers m) (layers (HAN_forward g hopt (m, log)).2.1).
Proof.
  rewrite HAN_forward_unfold.
  destruct (nodes_data g (category m) "h") as [h0|e0].
  - destruct (forward_layers g (layers m) h0 log) as [r [ls' log']] eqn:Hls.
    apply forward_layers_frame in Hls.
    destruct r as [hL|e]; [|done].
    by destruct (Linear_forward (linear m) hL).
  - split; [done|]. split; [done|]. apply Forall_Forall2_diag, Forall_forall.
    by intros.
Qed.

Lemma HAN_forward_seq_no_metapaths calls (m : HAN) log :
  no_metapaths m →
  no_metapaths (HAN_forward_seq calls (m, log)).1 ∧
  category (HAN_forward_seq calls (m, log)).1 = category m.
Proof.
  revert m log. induction calls as [|[g hopt] calls IH]; intros m log Hno;
    [done|].
  simpl. destruct (HAN_forward_keeps g hopt m log) as (Hcat & _ & Hframe).
  destruct (HAN_forward g hopt (m, log)) as [r [m1 log1]]. cbn [fst snd] in *.
  assert (no_metapaths m1) as Hno1.
  { destruct Hno as [Hne Hall]. split.
    - intros Hnil. rewrite Hnil in Hframe. apply Forall2_nil_inv_r in Hframe.
      done.
    - apply Forall_forall. intros lay' Hin.
      apply list_elem_of_lookup in Hin as [k Hk].
      eapply Forall2_lookup_r in Hframe as (lay & Hlay & _ & _ & ->); [|done].
      rewrite Forall_lookup in Hall. by eapply Hall. }
  destruct (IH m1 log1 Hno1) as [? ->]. done.
Qed.

End passes.

(** ** The executable backend meets the contracts *)

#[global] Instance demo_backend_spec : BackendSpec Demo.backend.
Proof.
  split.
  - intros c sg h. split; unfold shape, wf; simpl.
    + by rewrite length_fmap, length_seq.
    + apply Forall_fmap, Forall_forall. intros v _. simpl.
      by rewrite length_replicate.
  - intros a z N M F Hs. unfold shape in Hs. injection Hs as HN Hin.
    simpl. unfold Demo.semantic. rewrite Hin.
    split; unfold shape, wf; simpl.
    + by rewrite length_fmap, HN.
    + apply Forall_fmap, Forall_forall. intros r _. simpl.
      rewrite length_fmap, length_seq. lia.
  - intros l x N Hs. unfold shape in Hs. injection Hs as HN Hin.
    simpl. split; unfold shape, wf; simpl.
    + by rewrite length_fmap, HN.
    + apply Forall_fmap, Forall_forall. intros r _. simpl.
      rewrite length_replicate. lia.
Qed.

(** * The specification's claims *)

Section claims.
Context `{B : Backend} `{!BackendSpec B}.
Implicit Types (g : DGLGraph) (h : ftensor) (log : proj_log).

(** C1. Metapath enumeration: [build_model_from_args] hands [HAN] exactly
    the two-hop metapaths [e1; e2] over the schema whose first hop leaves
    the target category, whose second hop starts where the first ends and
    returns to the target category, and whose first hop is not a loop on
    its category; over a schema without repeated edge types no metapath is
    listed twice; every model the builder returns has layers, one per head
    count, each holding this list, and the builder does return one when
    there is a head count and the library accepts the attention modules;
    and over the schema with the two edge types A→B and B→A, with A ≠ B,
    the list is the single metapath [A→B; B→A]. *)
Theorem build_model_from_args_metapaths (args : Args.t) (hg : DGLGraph) :
  (∀ mp, mp ∈ find_mps (canonical_etypes hg) (Args.category args) ↔
     ∃ e1 e2, mp = [e1; e2] ∧
       e1 ∈ canonical_etypes hg ∧ e2 ∈ canonical_etypes hg ∧
       et_src e1 = Args.category args ∧ et_dst e1 = et_src e2 ∧
       et_dst e2 = et_src e1 ∧ et_src e1 ≠ et_dst e1) ∧
  (NoDup (canonical_etypes hg) →
     NoDup (find_mps (canonical_etypes hg) (Args.category args))) ∧
  (∀ s m s',
     build_model_from_args args hg s = (Ok m, s') →
     layers m ≠ [] ∧
     length (layers m) = length (Args.num_heads args) ∧
     Forall (λ lay, meta_paths lay =
                    find_mps (canonical_etypes hg) (Args.category args))
       (layers m)) ∧
  (Args.num_heads args ≠ [] →
   accepted (find_mps (canonical_etypes hg) (Args.category args))
     (Args.in_dim args) (Args.hidden_dim args) (Args.num_heads args)
     (Args.dropout args) →
   ∀ s, ∃ m s', build_model_from_args args hg s = (Ok m, s')) ∧
  (∀ b r1 r2,
     Args.category args ≠ b →
     canonical_etypes hg = [(Args.category args, r1, b); (b, r2, Args.category args)] ∨
     canonical_etypes hg = [(b, r2, Args.category args); (Args.category args, r1, b)] →
     find_mps (canonical_etypes hg) (Args.category args) =
       [[(Args.category args, r1, b); (b, r2, Args.category args)]]).
Proof.
  split_and!.
  - intros mp. apply elem_of_find_mps.
  - apply NoDup_find_mps.
  - intros s m s' Hbuild. unfold build_model_from_args in Hbuild.
    apply HAN_init_Ok in Hbuild as (Hbuilt & _ & Hnh & _).
    destruct Hbuilt as [_ Hcount Hlayers _ _]. split_and!.
    + intros Hnil. rewrite Hnil in Hcount. by destruct (Args.num_heads args).
    + done.
    + apply Forall_lookup. intros l lay Hl.
      destruct (Hlayers l lay Hl) as (cur & _ & Hcfg). by destruct Hcfg.
  - intros Hnh Hacc s. unfold build_model_from_args.
    destruct (HAN_init_spec
                (find_mps (canonical_etypes hg) (Args.category args))
                (Args.category args) (Args.in_dim args) (Args.hidden_dim args)
                (Args.out_dim args) (Args.num_heads args) (Args.dropout args)
                s Hnh Hacc) as (m & s' & Hinit & _).
    by exists m, s'.
  - intros b r1 r2 Hne [-> | ->]; by apply find_mps_two_way.
Qed.

(** C5. Model structure: a model the constructor returns has exactly
    [len(num_heads)] layers, of which there is at least one; the modules of
    layer 0 take width [in_size], those of a layer [l > 0] take width
    [hidden_size * num_heads[l-1]]; layer [l] has one module per metapath,
    each with [num_heads[l]] heads of width [hidden_size]; and the linear
    head maps [hidden_size * num_heads[-1]] to [out_size].  The constructor
    returns such a model whenever [num_heads] is not empty and the library
    accepts the attention modules. *)
Theorem HAN_init_structure (meta_paths : list metapath) (category : string)
    (in_size hidden_size out_size : nat) (num_heads : list nat) (dropout : Q)
    (s : nat) :
  (∀ m s',
     HAN_init meta_paths category in_size hidden_size out_size num_heads dropout s
       = (Ok m, s') →
     num_heads ≠ [] ∧
     length (layers m) = length num_heads ∧
     (∀ lay, layers m !! 0 = Some lay →
        Forall (λ c, in_feats c = in_size) (gat_layers lay)) ∧
     (∀ l lay prev, layers m !! S l = Some lay → num_heads !! l = Some prev →
        Forall (λ c, in_feats c = hidden_size * prev) (gat_layers lay)) ∧
     (∀ l lay, layers m !! l = Some lay →
        ∃ cur, num_heads !! l = Some cur ∧
          length (gat_layers lay) = length meta_paths ∧
          Forall (λ c, gat_num_heads c = cur ∧ out_feats c = hidden_size)
            (gat_layers lay) ∧
          sa_in_size (semantic_attention lay) = hidden_size * cur) ∧
     (∃ final, last num_heads = Some final ∧
        in_features (linear m) = hidden_size * final) ∧
     out_features (linear m) = out_size) ∧
  (num_heads ≠ [] →
   accepted meta_paths in_size hidden_size num_heads dropout →
   ∃ m s',
     HAN_init meta_paths category in_size hidden_size out_size num_heads dropout s
       = (Ok m, s')).
Proof.
  split.
  - intros m s' Hinit.
    apply HAN_init_Ok in Hinit as (Hbuilt & _ & Hnh & _).
    destruct Hbuilt as [_ Hcount Hlayers Hlin Hout].
    split_and!; try done.
    + intros lay Hl. destruct (Hlayers 0 lay Hl) as (cur & _ & [_ _ Hg _]).
      eapply Forall_impl; [done|]. by intros c (? & _).
    + intros l lay prev Hl Hprev.
      destruct (Hlayers (S l) lay Hl) as (cur & _ & [_ _ Hg _]).
      eapply Forall_impl; [done|]. simpl. rewrite Hprev. by intros c (? & _).
    + intros l lay Hl. destruct (Hlayers l lay Hl) as (cur & Hcur & [_ Hc Hg Hs]).
      exists cur. split_and!; try done.
      eapply Forall_impl; [done|]. by intros c (_ & ? & ? & _).
  - intros Hnh Hacc.
    destruct (HAN_init_spec meta_paths category in_size hidden_size out_size
                num_heads dropout s Hnh Hacc) as (m & s' & Hinit & _).
    by exists m, s'.
Qed.

(** C9. Construction invariant: a layer the constructor returns has one
    attention module per metapath supplied and stores that metapath list,
    and the constructor returns one whenever the library accepts the
    attention modules; a forward pass of the layer, whether it returns or
    raises, leaves the module list and the metapath list as they were; and
    so does a forward pass of the model, for every one of its layers. *)
Theorem HANLayer_modules_invariant :
  (∀ (mps : list metapath) in_size out_size layer_num_heads dropout s,
     (∀ self s',
        HANLayer_init mps in_size out_size layer_num_heads dropout s
          = (Ok self, s') →
        meta_paths self = mps ∧
        length (gat_layers self) = length mps) ∧
     (mps = [] ∨ gat_accepted in_size out_size layer_num_heads dropout →
      ∃ self s',
        HANLayer_init mps in_size out_size layer_num_heads dropout s
          = (Ok self, s'))) ∧
  (∀ g h (self : HANLayer) log,
     meta_paths (HANLayer_forward g h (self, log)).2.1 = meta_paths self ∧
     gat_layers (HANLayer_forward g h (self, log)).2.1 = gat_layers self) ∧
  (∀ g hopt (model : HAN) log,
     Forall2 (λ lay lay', meta_paths lay' = meta_paths lay ∧
                          gat_layers lay' = gat_layers lay)
       (layers model) (layers (HAN_forward g hopt (model, log)).2.1)).
Proof.
  split_and!.
  - intros mps i o hd d s. split.
    + intros self s' (-> & _ & _)%HANLayer_init_Ok. simpl.
      by rewrite length_fmap, length_seq.
    + intros Hacc. eexists _, _. by apply HANLayer_init_spec.
  - intros g h self log.
    destruct (HANLayer_forward g h (self, log)) as [r [self' log']] eqn:Hrun.
    by apply HANLayer_forward_frame in Hrun as (? & _ & ? & _).
  - intros g hopt model log. rewrite HAN_forward_unfold.
    destruct (nodes_data g (category model) "h") as [h0|].
    + destruct (forward_layers g (layers model) h0 log) as [r [ls' log']] eqn:Hls.
      apply forward_layers_frame in Hls.
      assert (Forall2 (λ lay lay', meta_paths lay' = meta_paths lay ∧
                                   gat_layers lay' = gat_layers lay)
                (layers model) ls') as Hframe.
      { eapply Forall2_impl; [done|]. naive_solver. }
      destruct r as [hL|e]; [|done].
      by destruct (Linear_forward (linear model) hL).
    + apply Forall_Forall2_diag, Forall_forall. by intros.
Qed.

(** C10. [HAN.forward] ignores its optional feature argument: whatever is
    passed for [h], the result and the state left behind are the same. *)
Theorem HAN_forward_ignores_h g (h1 h2 : option ftensor) (st : model_st) :
  HAN_forward g h1 st = HAN_forward g h2 st.
Proof. reflexivity. Qed.

(** C2. Cache identity invalidation: after a forward pass on [g], a
    forward pass with the same graph object (same identity, whatever its
    contents and whatever the features) calls no projection and leaves the
    whole layer, its cached subgraphs included, as it was; a forward pass
    with a different graph object whose projections succeed calls the
    projection exactly once per configured metapath, in order, keys the
    layer to the new graph, and leaves in the cache the new projections
    and none of the old entries. *)
Theorem HANLayer_forward_cache_identity g h (self : HANLayer) log :
  (∀ g2 h2, g_id g2 = g_id g →
     (HANLayer_forward g2 h2 (HANLayer_forward g h (self, log)).2).2 =
     (HANLayer_forward g h (self, log)).2) ∧
  (∀ g' h', g_id g' ≠ g_id g →
     Forall (λ mp, ∃ sg, metapath_reachable_graph g' mp = Ok sg)
       (meta_paths self) →
     (HANLayer_forward g' h' (HANLayer_forward g h (self, log)).2).2.2 =
       (HANLayer_forward g h (self, log)).2.2 ++
       ((λ mp, (g_id g', mp)) <$> meta_paths self) ∧
     _cached_graph
       (HANLayer_forward g' h' (HANLayer_forward g h (self, log)).2).2.1 =
       Some (g_id g') ∧
     ∀ mp,
       _cached_coalesced_graph
         (HANLayer_forward g' h' (HANLayer_forward g h (self, log)).2).2.1 !! mp =
       if decide (mp ∈ meta_paths self)
       then to_option (metapath_reachable_graph g' mp) else None).
Proof.
  destruct (HANLayer_forward g h (self, log)) as [r [self1 log1]] eqn:Hfirst.
  apply HANLayer_forward_frame in Hfirst as (_ & _ & Hmps & Hkey).
  cbn [fst snd]. split.
  - intros g2 h2 Hid. apply HANLayer_forward_again. by rewrite Hkey, Hid.
  - intros g' h' Hid Hproj. rewrite <- Hmps in *.
    apply HANLayer_forward_other; [|done]. rewrite Hkey. congruence.
Qed.

(** C3. Layer shape contract: in every forward pass that returns, on a
    layer configured for M metapaths, H heads and output width D, fed
    features over N nodes, there are M >= 1 per-metapath embeddings, each
    of shape (N, D*H), their stack has shape (N, M, D*H), and the returned
    tensor has shape (N, D*H), whatever M is.  And such a pass does return
    on a layer not keyed to the graph when M >= 1, the features have the
    configured width and every metapath projects onto the N nodes. *)
Theorem HANLayer_forward_shapes (mps : list metapath) (in_size D H : nat)
    (self : HANLayer) g h log :
  configured mps in_size D H self →
  (∀ out st', HANLayer_forward g h (self, log) = (Ok out, st') →
     ∃ embs z,
       semantic_embeddings st'.1 h = Ok embs ∧
       length embs = length mps ∧ (1 ≤ length mps)%nat ∧
       Forall (λ e, has_shape e [length (rows h); D * H]) embs ∧
       torch_stack1 embs = Ok z ∧
       has_shape z [length (rows h); length mps; D * H] ∧
       SemanticAttention_forward (semantic_attention st'.1) z = Ok out ∧
       has_shape out [length (rows h); D * H]) ∧
  (mps ≠ [] → _cached_graph self ≠ Some (g_id g) → inner h = [in_size] →
   (∀ mp, mp ∈ mps →
      ∃ sg, metapath_reachable_graph g mp = Ok sg ∧
            num_nodes sg = length (rows h)) →
   ∃ out st', HANLayer_forward g h (self, log) = (Ok out, st') ∧
              has_shape out [length (rows h); D * H]).
Proof.
  intros Hcfg. split.
  - intros out [self' log'] Hrun. pose proof Hrun as Hout%HANLayer_forward_Ok.
    apply (HANLayer_forward_configured _ _ _ _ _ _ _ _ _ _ _ Hrun) in Hcfg.
    destruct (combine_Ok _ _ _ _ _ _ _ Hcfg Hout)
      as (embs & z & ? & ? & Hne & ? & ? & ? & _ & ? & ?).
    exists embs, z. split_and!; try done.
    destruct mps; [done|simpl; lia].
  - intros Hne Hmiss Hin Hproj.
    destruct (HANLayer_forward_total _ _ _ _ g h self log Hcfg Hmiss Hne Hin Hproj)
      as (out & self' & Hrun & Hshape).
    by eexists _, _.
Qed.

(** C4. Model forward output: a result of [HAN.forward] is the mapping
    whose single key is the configured category, bound to the linear head
    applied to what the layers, each applied in list order to the output
    of the one before, make of the category's features stored on the
    graph; it has shape (number of target nodes, out_size).  And a model as
    built, none of whose layers is keyed to the graph, does return such a
    result when the stored features have width [in_size] and every
    metapath projects onto the target nodes. *)
Theorem HAN_forward_output (mps : list metapath) (cat : string)
    (in_size hid out_size : nat) (nh : list nat) (self : HAN) g hopt log :
  built mps cat in_size hid out_size nh self →
  (∀ res st', HAN_forward g hopt (self, log) = (Ok res, st') →
     ∃ h0 hL out,
       nodes_data g cat "h" = Ok h0 ∧
       chain (layers st'.1) h0 = Ok hL ∧
       Linear_forward (linear self) hL = Ok out ∧
       res = {[ cat := out ]} ∧
       has_shape out [length (rows h0); out_size]) ∧
  (∀ h0,
     Forall (λ lay, _cached_graph lay ≠ Some (g_id g)) (layers self) →
     mps ≠ [] → nodes_data g cat "h" = Ok h0 → inner h0 = [in_size] →
     (∀ mp, mp ∈ mps →
        ∃ sg, metapath_reachable_graph g mp = Ok sg ∧
              num_nodes sg = length (rows h0)) →
     ∃ out st', HAN_forward g hopt (self, log) = (Ok {[ cat := out ]}, st') ∧
                has_shape out [length (rows h0); out_size]).
Proof.
  intros Hbuilt. split.
  - intros res st' Hrun.
    destruct (HAN_forward_Ok _ _ _ _ _ _ Hrun)
      as (h0 & hL & out & Hh0 & HhL & Hlin & -> & Hshape).
    rewrite (built_category _ _ _ _ _ _ _ Hbuilt) in *.
    rewrite (built_linear_out _ _ _ _ _ _ _ Hbuilt) in Hshape.
    exists h0, hL, out. split_and!; try done.
    rewrite HAN_forward_unfold, (built_category _ _ _ _ _ _ _ Hbuilt), Hh0 in Hrun.
    destruct (forward_layers g (layers self) h0 log) as [[hL'|e] [ls' log']] eqn:Hls;
      [|done].
    simpl in HhL. injection HhL as ->. rewrite Hlin in Hrun.
    injection Hrun as <-. simpl. by eapply forward_layers_chain.
  - intros h0 Hfresh Hne Hh0 Hin Hproj. by eapply HAN_forward_total.
Qed.

(** C6. Order preservation: in a forward pass that returns, the embedding
    at position [k] is the flattened output of the [k]-th attention module
    run over the cached projection of the [k]-th declared metapath, and
    slice [k] of the stack along the metapath axis is that same
    embedding. *)
Theorem HANLayer_forward_order (mps : list metapath) (in_size D H : nat)
    (self : HANLayer) g h log out st' :
  configured mps in_size D H self →
  HANLayer_forward g h (self, log) = (Ok out, st') →
  ∃ embs z,
    semantic_embeddings st'.1 h = Ok embs ∧
    torch_stack1 embs = Ok z ∧
    SemanticAttention_forward (semantic_attention st'.1) z = Ok out ∧
    length embs = length mps ∧
    ∀ k mp, mps !! k = Some mp →
      ∃ conv sg t emb,
        gat_layers self !! k = Some conv ∧
        _cached_coalesced_graph st'.1 !! mp = Some sg ∧
        GATConv_forward conv sg h = Ok t ∧ flatten1 t = Ok emb ∧
        embs !! k = Some emb ∧ unbind1 z !! k = Some emb.
Proof.
  intros Hcfg Hrun. destruct st' as [self' log'].
  pose proof Hrun as Hout%HANLayer_forward_Ok.
  pose proof Hrun as (Hgat & _ & _ & _)%HANLayer_forward_frame.
  apply (HANLayer_forward_configured _ _ _ _ _ _ _ _ _ _ _ Hrun) in Hcfg.
  destruct (combine_Ok _ _ _ _ _ _ _ Hcfg Hout)
    as (embs & z & Hembs & Hlen & _ & _ & Hz & _ & Hunbind & Hsem & _).
  exists embs, z. split_and!; try done.
  intros k mp Hk. cbn [fst] in *. unfold semantic_embeddings in Hembs.
  rewrite (cfg_meta_paths _ _ _ _ _ Hcfg) in Hembs.
  destruct (embed_loop_lookup _ _ _ _ _ _ Hembs Hk) as (emb & Hemb & Hb).
  apply branch_Ok in Hb as (sg & conv & t & Hsg & Hconv & Ht & Hflat).
  exists conv, sg, t, emb. rewrite <- Hgat, Hunbind. by split_and!.
Qed.

(** C7. Zero-in-degree tolerance: every attention module of a layer the
    constructor returns has [allow_zero_in_degree] set, so on any projected
    subgraph, also one in which a target node [v] has no incoming edge, and
    on features of the configured width over its nodes, the module returns,
    and its flattened output has a row of the full width for [v]; a module
    built without the flag raises on such a subgraph. *)
Theorem HANLayer_zero_in_degree (mps : list metapath)
    (in_size out_size layer_num_heads : nat) (dropout : Q) (s : nat)
    (self : HANLayer) (s' : nat) :
  HANLayer_init mps in_size out_size layer_num_heads dropout s = (Ok self, s') →
  Forall (λ conv, allow_zero_in_degree conv = true) (gat_layers self) ∧
  (∀ conv sg (feat : ftensor) v,
     conv ∈ gat_layers self →
     (v < num_nodes sg)%nat → in_degree sg v = 0 →
     inner feat = [in_size] → length (rows feat) = num_nodes sg →
     ∃ out emb row,
       GATConv_forward conv sg feat = Ok out ∧ flatten1 out = Ok emb ∧
       rows emb !! v = Some row ∧
       length row = out_size * layer_num_heads) ∧
  (∀ conv sg (feat : ftensor) v,
     allow_zero_in_degree conv = false →
     (v < num_nodes sg)%nat → in_degree sg v = 0 →
     GATConv_forward conv sg feat =
     Raise (DGLError "There are 0-in-degree nodes in the graph")).
Proof.
  intros (-> & _ & _)%HANLayer_init_Ok. simpl. split_and!.
  - apply Forall_fmap, Forall_forall. by intros p _.
  - intros conv sg feat v Hconv Hv _ Hin Hrows.
    apply list_elem_of_fmap in Hconv as (p & -> & _).
    rewrite GATConv_forward_allow by done.
    destruct (gat_kernel_shape (gat_of in_size out_size layer_num_heads dropout p)
                sg feat) as [Hs Hwf].
    unfold shape in Hs. injection Hs as HN Hi.
    destruct (lookup_lt_is_Some_2
                (rows (gat_kernel (gat_of in_size out_size layer_num_heads dropout p)
                         sg feat)) v) as [row Hrow]; [lia|].
    eexists _, _, row. split; [done|]. unfold flatten1. rewrite Hi.
    split; [done|]. split; [done|].
    unfold wf in Hwf. rewrite Forall_lookup in Hwf.
    rewrite (Hwf _ _ Hrow), Hi. simpl. lia.
  - intros conv sg feat v Hflag Hv Hdeg.
    apply GATConv_forward_zero_in_degree; [done|].
    unfold has_zero_in_degree. apply existsb_exists. exists v.
    split; [apply list_elem_of_In, elem_of_seq; lia|]. by rewrite Hdeg.
Qed.

(** C8, as the code has it.  Constructing a model over an empty metapath
    list returns a model (no error is reported at construction) whose
    layers have no attention module; every forward pass of it, the first
    and any later one, on a graph that stores the category's features
    raises, in the first layer, the error of stacking an empty list,
    before any projection is called.  No failure is caught or retried: the
    exception of the feature lookup, of any layer or of the linear head is
    the result of the model's forward pass, no later layer being run; in a
    layer, the exception of a projection, of an iteration of the embedding
    loop, of the stack or of the combiner is the result of the layer's
    forward pass; and a pass calls the projection at most once per
    metapath. *)
Theorem HAN_empty_metapaths (cat : string) (in_size hid out_size : nat)
    (nh : list nat) (dropout : Q) (s : nat) :
  nh ≠ [] →
  (∃ m s',
     HAN_init [] cat in_size hid out_size nh dropout s = (Ok m, s') ∧
     layers m ≠ [] ∧
     Forall (λ lay, gat_layers lay = [] ∧ meta_paths lay = []) (layers m) ∧
     ∀ calls g hopt log h0,
       nodes_data g cat "h" = Ok h0 →
       (HAN_forward g hopt (HAN_forward_seq calls (m, log))).1 =
         Raise (RuntimeError "stack expects a non-empty TensorList") ∧
       (HAN_forward g hopt (HAN_forward_seq calls (m, log))).2.2 =
         (HAN_forward_seq calls (m, log)).2) ∧
  (∀ (self : HAN) g hopt log e,
     nodes_data g (category self) "h" = Raise e →
     HAN_forward g hopt (self, log) = (Raise e, (self, log))) ∧
  (∀ (self : HAN) g hopt log h0 ls1 lay ls2 hk ls1' logk e lay' log',
     layers self = ls1 ++ lay :: ls2 →
     nodes_data g (category self) "h" = Ok h0 →
     forward_layers g ls1 h0 log = (Ok hk, (ls1', logk)) →
     HANLayer_forward g hk (lay, logk) = (Raise e, (lay', log')) →
     HAN_forward g hopt (self, log) =
     (Raise e,
      (mkHAN (category self) (ls1' ++ lay' :: ls2) (linear self), log'))) ∧
  (∀ (self : HAN) g hopt log h0 hL st' e,
     nodes_data g (category self) "h" = Ok h0 →
     forward_layers g (layers self) h0 log = (Ok hL, st') →
     Linear_forward (linear self) hL = Raise e →
     (HAN_forward g hopt (self, log)).1 = Raise e) ∧
  (∀ (lay : HANLayer) g h log pre mp post e,
     meta_paths lay = pre ++ mp :: post →
     _cached_graph lay ≠ Some (g_id g) →
     Forall (λ m, ∃ sg, metapath_reachable_graph g m = Ok sg) pre →
     metapath_reachable_graph g mp = Raise e →
     (HANLayer_forward g h (lay, log)).1 = Raise e) ∧
  (∀ (lay : HANLayer) g h log,
     _cached_graph lay = Some (g_id g) ∨
     Forall (λ mp, ∃ sg, metapath_reachable_graph g mp = Ok sg) (meta_paths lay) →
     (∀ k mp e,
        meta_paths lay !! k = Some mp →
        (∀ j mpj, (j < k)%nat → meta_paths lay !! j = Some mpj →
           ∃ emb, branch (HANLayer_forward g h (lay, log)).2.1 h j mpj = Ok emb) →
        branch (HANLayer_forward g h (lay, log)).2.1 h k mp = Raise e →
        (HANLayer_forward g h (lay, log)).1 = Raise e) ∧
     (∀ embs e,
        semantic_embeddings (HANLayer_forward g h (lay, log)).2.1 h = Ok embs →
        torch_stack1 embs = Raise e →
        (HANLayer_forward g h (lay, log)).1 = Raise e) ∧
     (∀ embs z e,
        semantic_embeddings (HANLayer_forward g h (lay, log)).2.1 h = Ok embs →
        torch_stack1 embs = Ok z →
        SemanticAttention_forward (semantic_attention lay) z = Raise e →
        (HANLayer_forward g h (lay, log)).1 = Raise e)) ∧
  (∀ (lay : HANLayer) g h log,
     ∃ k, (k ≤ length (meta_paths lay))%nat ∧
          (HANLayer_forward g h (lay, log)).2.2 =
          log ++ ((λ mp, (g_id g, mp)) <$> take k (meta_paths lay))).
Proof.
  intros Hnh. split_and!.
  - destruct (HAN_init_spec [] cat in_size hid out_size nh dropout s Hnh)
      as (m & s' & Hinit & Hbuilt & _); [by left|].
    destruct Hbuilt as [Hcat Hcount Hlayers _ _].
    assert (Forall (λ lay, gat_layers lay = [] ∧ meta_paths lay = []) (layers m))
      as Hempty.
    { apply Forall_lookup. intros l lay Hl.
      destruct (Hlayers l lay Hl) as (cur & _ & [Hm Hc _ _]).
      split; [by apply nil_length_inv|done]. }
    assert (layers m ≠ []) as Hne.
    { intros Hnil. rewrite Hnil in Hcount. by destruct nh. }
    exists m, s'. split_and!; try done.
    intros calls g hopt log h0 Hh0.
    assert (no_metapaths m) as Hno.
    { split; [done|]. eapply Forall_impl; [done|]. by intros lay [_ ?]. }
    destruct (HAN_forward_seq_no_metapaths calls m log Hno) as [Hno' Hcat'].
    destruct (HAN_forward_seq calls (m, log)) as [m' log'] eqn:Hseq.
    cbn [fst snd] in *. apply (HAN_forward_no_metapaths g hopt m' log' h0 Hno').
    by rewrite Hcat', Hcat.
  - intros self g hopt log e He. by rewrite HAN_forward_unfold, He.
  - intros. by eapply HAN_forward_raise.
  - intros self g hopt log h0 hL [ls' log'] e Hh0 Hls Hlin.
    by rewrite HAN_forward_unfold, Hh0, Hls, Hlin.
  - intros lay g h log pre mp post e Hmps Hmiss Hpre Hmp.
    destruct (HANLayer_forward_fail g h lay log pre mp post e Hmps Hmiss Hpre Hmp)
      as (c & -> & _).
    done.
  - intros lay g h log Hsettled.
    rewrite (HANLayer_forward_settled g h lay log Hsettled).
    destruct (HANLayer_forward g h (lay, log)) as [r [lay' log']] eqn:Hrun.
    apply HANLayer_forward_frame in Hrun as (_ & Hsem & Hmps & _).
    cbn [fst snd]. unfold combine, semantic_embeddings. rewrite Hmps, Hsem.
    split_and!.
    + intros k mp e Hk Hbefore Hraise.
      rewrite (embed_loop_raise lay' h 0 (meta_paths lay) k mp e); done.
    + intros embs e -> Hstack. simpl. by rewrite Hstack.
    + intros embs z e -> Hstack Hcomb. simpl. rewrite Hstack. simpl. done.
  - intros lay g h log. apply HANLayer_forward_calls.
Qed.

End claims.

(** * Concrete runs

    The theorems above, applied to the bibliographic graphs of [Demo]. *)

Section runs.
Import Demo.

Lemma layer1_configured : configured [[write; written_by]] 4 8 2 layer1.
Proof.
  apply (HANLayer_init_configured [[write; written_by]] 4 8 2 (1 # 2) 0 layer1 2).
  reflexivity.
Qed.

Lemma layer2_configured :
  configured [[write; written_by]; [affiliated; employs]] 4 8 2 layer2.
Proof.
  apply (HANLayer_init_configured [[write; written_by]; [affiliated; employs]]
           4 8 2 (1 # 2) 0 layer2 3).
  reflexivity.
Qed.

Lemma model_built : built [[write; written_by]] "author" 4 8 3 [2] model.
Proof.
  apply (HAN_init_built [[write; written_by]] "author" 4 8 3 [2] (1 # 2) 0 model 3).
  reflexivity.
Qed.

Lemma build_model_from_args_metapaths_witness :
  find_mps (canonical_etypes (acm 1%positive)) "author" = [[write; written_by]] ∧
  ∃ m s', build_model_from_args (B := backend) args (acm 1%positive) 0 = (Ok m, s') ∧
          layers m ≠ [] ∧
          Forall (λ lay, meta_paths lay = [[write; written_by]]) (layers m).
Proof.
  destruct (build_model_from_args_metapaths (B := backend) args (acm 1%positive))
    as (_ & _ & Hlayers & Hbuild & Htwo).
  split.
  - apply (Htwo "paper" "write" "written-by"); [done|]. left. reflexivity.
  - destruct (Hbuild ltac:(done)) with (s := 0) as (m & s' & Hm).
    { right. intros [|l] cur Hl; [|done]. injection Hl as <-. reflexivity. }
    exists m, s'. split; [exact Hm|].
    destruct (Hlayers 0 m s' Hm) as (Hne & _ & Hall). split; [exact Hne|exact Hall].
Defined.

Lemma HAN_init_structure_witness :
  ∃ m s',
    HAN_init (B := backend) [[write; written_by]] "author" 4 8 3 [2; 3] (1 # 2) 0
      = (Ok m, s') ∧
    length (layers m) = 2 ∧
    (∀ lay, layers m !! 1 = Some lay →
       Forall (λ c, in_feats c = 8 * 2) (gat_layers lay)) ∧
    out_features (linear m) = 3.
Proof.
  destruct (HAN_init_structure (B := backend) [[write; written_by]] "author"
              4 8 3 [2; 3] (1 # 2) 0) as [Hshape Hreturns].
  destruct Hreturns as (m & s' & Hinit); [done| |].
  { right. intros [|[|l]] cur Hl; [| |done]; injection Hl as <-; reflexivity. }
  destruct (Hshape m s' Hinit) as (_ & Hlen & _ & Hnext & _ & _ & Hout).
  exists m, s'. split_and!; [done|done| |done].
  intros lay Hlay. apply (Hnext 0 lay 2 Hlay). reflexivity.
Defined.

Lemma HANLayer_forward_cache_identity_witness :
  (HANLayer_forward (B := backend) (dblp 1%positive) author_features
     (HANLayer_forward (B := backend) (acm 1%positive) author_features (layer1, [])).2).2 =
  (HANLayer_forward (B := backend) (acm 1%positive) author_features (layer1, [])).2 ∧
  (HANLayer_forward (B := backend) (acm 2%positive) author_features
     (HANLayer_forward (B := backend) (acm 1%positive) author_features (layer1, [])).2).2.2 =
  [(1%positive, [write; written_by]); (2%positive, [write; written_by])].
Proof.
  destruct (HANLayer_forward_cache_identity (B := backend) (acm 1%positive) author_features
              layer1 []) as [Hsame Hother].
  split.
  - apply Hsame. reflexivity.
  - destruct (Hother (acm 2%positive) author_features) as (Hlog & _).
    + done.
    + constructor; [|constructor]. eexists. reflexivity.
    + etrans; [exact Hlog|reflexivity].
Defined.

Lemma HANLayer_forward_shapes_witness :
  ∃ out st',
    HANLayer_forward (B := backend) (dblp 1%positive) author_features (layer2, []) =
      (Ok out, st') ∧
    has_shape out [3; 8 * 2].
Proof.
  destruct (HANLayer_forward_shapes (B := backend) [[write; written_by]; [affiliated; employs]]
              4 8 2 layer2 (dblp 1%positive) author_features []
              layer2_configured) as [_ Htotal].
  apply Htotal.
  - done.
  - done.
  - reflexivity.
  - intros mp Hmp. repeat apply elem_of_cons in Hmp as [-> | Hmp].
    + eexists. split; reflexivity.
    + eexists. split; reflexivity.
    + by apply elem_of_nil in Hmp.
Defined.

Lemma HAN_forward_output_witness :
  ∃ out st',
    HAN_forward (B := backend) (acm 1%positive) None (model, []) =
      (Ok {[ "author" := out ]}, st') ∧
    has_shape out [3; 3].
Proof.
  destruct (HAN_forward_output (B := backend) [[write; written_by]] "author" 4 8 3 [2] model
              (acm 1%positive) None [] model_built) as [_ Htotal].
  apply (Htotal author_features).
  - constructor; [done|constructor].
  - done.
  - reflexivity.
  - reflexivity.
  - intros mp Hmp. repeat apply elem_of_cons in Hmp as [-> | Hmp].
    + eexists. split; reflexivity.
    + by apply elem_of_nil in Hmp.
Defined.

Lemma HANLayer_forward_order_witness :
  ∃ out st' embs z,
    HANLayer_forward (B := backend) (dblp 1%positive) author_features (layer2, []) =
      (Ok out, st') ∧
    semantic_embeddings (B := backend) st'.1 author_features = Ok embs ∧
    torch_stack1 embs = Ok z ∧
    ∃ conv sg t emb,
      gat_layers layer2 !! 1 = Some conv ∧
      _cached_coalesced_graph st'.1 !! [affiliated; employs] = Some sg ∧
      GATConv_forward (B := backend) conv sg author_features = Ok t ∧ flatten1 t = Ok emb ∧
      embs !! 1 = Some emb ∧ unbind1 z !! 1 = Some emb.
Proof.
  assert (∃ out st',
            HANLayer_forward (B := backend) (dblp 1%positive) author_features (layer2, []) =
              (Ok out, st')) as (out & st' & Hrun).
  { eexists _, _. reflexivity. }
  destruct (HANLayer_forward_order (B := backend) [[write; written_by]; [affiliated; employs]]
              4 8 2 layer2 (dblp 1%positive) author_features [] out st'
              layer2_configured Hrun)
    as (embs & z & Hembs & Hz & _ & _ & Hk).
  exists out, st', embs, z. split_and!; [done|done|done|].
  apply (Hk 1 [affiliated; employs]). reflexivity.
Defined.

Lemma HANLayer_zero_in_degree_witness :
  reachable (dblp 1%positive) [write; written_by] = Ok coauthors ∧
  in_degree coauthors 2 = 0 ∧
  ∃ out emb row,
    GATConv_forward (B := backend) (gat_of 4 8 2 (1 # 2) 0) coauthors
      author_features = Ok out ∧
    flatten1 out = Ok emb ∧ rows emb !! 2 = Some row ∧ length row = 8 * 2.
Proof.
  split; [reflexivity|]. split; [reflexivity|].
  destruct (HANLayer_zero_in_degree (B := backend) [[write; written_by]] 4 8 2
              (1 # 2) 0 layer1 2) as (_ & Htolerant & _); [reflexivity|].
  apply (Htolerant (gat_of 4 8 2 (1 # 2) 0) coauthors author_features 2).
  - apply list_elem_of_here.
  - simpl. lia.
  - reflexivity.
  - reflexivity.
  - reflexivity.
Defined.

Lemma HAN_empty_metapaths_witness :
  ∃ m s',
    HAN_init (B := backend) [] "author" 4 8 3 [2] (1 # 2) 0 = (Ok m, s') ∧
    (HAN_forward (B := backend) (one_way 1%positive) None (m, [])).1 =
      Raise (RuntimeError "stack expects a non-empty TensorList") ∧
    (HAN_forward (B := backend) (one_way 1%positive) None
       (HAN_forward (B := backend) (one_way 1%positive) None (m, [])).2).1 =
      Raise (RuntimeError "stack expects a non-empty TensorList").
Proof.
  destruct (HAN_empty_metapaths (B := backend) "author" 4 8 3 [2] (1 # 2) 0)
    as ((m & s' & Hinit & _ & _ & Hraise) & _); [done|].
  exists m, s'. split; [done|]. split.
  - apply (Hraise [] (one_way 1%positive) None [] author_features). reflexivity.
  - apply (Hraise [(one_way 1%positive, None)] (one_way 1%positive) None []
             author_features).
    reflexivity.
Defined.

(** C8, as the specification has it, fails on [one_way]: the schema closes
    no metapath, yet [build_model_from_args] reports nothing and returns a
    model; the error only surfaces inside the first forward pass, raised by
    the first layer when it stacks its empty list of embeddings. *)
Lemma empty_metapaths_surface_in_forward :
  find_mps (canonical_etypes (one_way 1%positive)) (Args.category args) = [] ∧
  ∃ m s',
    build_model_from_args (B := backend) args (one_way 1%positive) 0 = (Ok m, s') ∧
    Forall (λ lay, gat_layers lay = []) (layers m) ∧
    (HAN_forward (B := backend) (one_way 1%positive) None (m, [])).1 =
      Raise (RuntimeError "stack expects a non-empty TensorList").
Proof.
  split; [reflexivity|]. eexists _, _. split; [reflexivity|].
  split; [by repeat constructor|reflexivity].
Qed.

End runs.

(** * Further properties of the module *)

(** ** The metapath enumeration, declaratively *)

(** [e1; e2] leaves [category], comes back to it, and passes through
    another category: the three tests of [build_model_from_args]. *)
Definition round_trip (category : string) (e1 e2 : canonical_etype) : Prop :=
  et_src e1 = category ∧
  (et_src e1 = et_dst e2 ∧ et_dst e1 = et_src e2) ∧
  et_src e1 ≠ et_dst e1.

#[global] Instance round_trip_dec category e1 e2 :
  Decision (round_trip category e1 e2).
Proof. unfold round_trip. apply _. Defined.

(** An edge type with an end in [category]. *)
Definition touches (category : string) (e : canonical_etype) : Prop :=
  et_src e = category ∨ et_dst e = category.

#[global] Instance touches_dec category e : Decision (touches category e).
Proof. unfold touches. apply _. Defined.

Lemma bind_nil_fun {A C} (f : A → list C) (l : list A) :
  (∀ x, x ∈ l → f x = []) → l ≫= f = [].
Proof.
  induction l as [|x l IH]; intros Hf; [done|]. simpl.
  rewrite (Hf x) by set_solver. apply IH. intros y Hy. apply Hf. set_solver.
Qed.

Lemma bind_filter {A C} (P : A → Prop) `{!∀ x, Decision (P x)}
    (f : A → list C) (l : list A) :
  (∀ x, x ∈ l → ¬ P x → f x = []) → filter P l ≫= f = l ≫= f.
Proof.
  induction l as [|x l IH]; intros Hf; [done|].
  rewrite filter_cons. destruct (decide (P x)) as [HP|HP]; simpl.
  - f_equal. apply IH. intros y Hy. apply Hf. set_solver.
  - rewrite (Hf x) by set_solver. simpl. apply IH.
    intros y Hy. apply Hf. set_solver.
Qed.

Lemma find_mps_round_trips etypes category :
  find_mps etypes category =
  e1 ← etypes; e2 ← etypes;
  if decide (round_trip category e1 e2) then [[e1; e2]] else [].
Proof.
  rewrite find_mps_bind. apply list_bind_ext; [|done]. intros e1.
  unfold closing_hops, round_trip. case_decide as Hsrc.
  - apply list_bind_ext; [|done]. intros e2.
    destruct (decide (et_src e1 = et_dst e2 ∧ et_dst e1 = et_src e2)) as [Hc|Hc].
    + destruct (decide (et_src e1 ≠ et_dst e1)) as [Hn|Hn].
      * by rewrite decide_True.
      * rewrite decide_False; [done|]. by intros (_ & _ & ?).
    + rewrite decide_False; [done|]. by intros (_ & ? & _).
  - symmetry. apply bind_nil_fun. intros e2 _.
    rewrite decide_False; [done|]. by intros (? & _).
Qed.

(** X1. The nested loops of [build_model_from_args] compute a list
    comprehension: the metapaths come out ordered by the position of their
    first hop in the schema, then by that of their second hop, each pair of
    positions contributing at most once. *)
Theorem find_mps_comprehension (etypes : list canonical_etype) (category : string) :
  find_mps etypes category =
  e1 ← etypes; e2 ← etypes;
  if decide (round_trip category e1 e2) then [[e1; e2]] else [].
Proof. apply find_mps_round_trips. Qed.

(** X2. The metapaths of the category at the far end are the mirror images:
    if [e1; e2] is listed for [category], then [e2; e1] is listed for the
    category [e1] leads to. *)
Theorem find_mps_mirror (etypes : list canonical_etype) (category : string)
    (e1 e2 : canonical_etype) :
  [e1; e2] ∈ find_mps etypes category →
  [e2; e1] ∈ find_mps etypes (et_dst e1).
Proof.
  rewrite !elem_of_find_mps.
  intros (a & b & [= <- <-] & Ha & Hb & Hsrc & Hmid & Hback & Hne).
  exists e2, e1. split_and!; try done; congruence.
Qed.

(** X3. Edge types with no end in the target category play no part: dropping
    them from the schema leaves the list of metapaths as it is. *)
Theorem find_mps_touching (etypes : list canonical_etype) (category : string) :
  find_mps (filter (touches category) etypes) category = find_mps etypes category.
Proof.
  rewrite !find_mps_round_trips.
  etrans; [apply (bind_filter (touches category))|].
  - intros e1 _ Hno. apply bind_nil_fun. intros e2 _. apply decide_False.
    unfold round_trip, touches in *. naive_solver.
  - apply list_bind_ext; [|done]. intros e1.
    apply (bind_filter (touches category)).
    intros e2 _ Hno. apply decide_False. unfold round_trip, touches in *.
    intros (Hsrc & [Hback Hmid] & Hne). apply Hno. right. congruence.
Qed.

Lemma find_mps_nil etypes category :
  find_mps etypes category = [] ↔
  ∀ e1 e2, e1 ∈ etypes → e2 ∈ etypes → ¬ round_trip category e1 e2.
Proof.
  split.
  - intros Hnil e1 e2 He1 He2 (Hsrc & [Hback Hmid] & Hne).
    assert ([e1; e2] ∈ find_mps etypes category) as Hin.
    { apply elem_of_find_mps. exists e1, e2. by split_and!. }
    rewrite Hnil in Hin. by apply elem_of_nil in Hin.
  - intros Hno. apply elem_of_nil_inv. intros mp.
    intros (e1 & e2 & -> & He1 & He2 & Hsrc & Hmid & Hback & Hne)%elem_of_find_mps.
    apply (Hno e1 e2 He1 He2). by split_and!.
Qed.

(** ** Construction: failure and parameters *)

(** The parameter blocks of the modules of a layer, in construction
    order, and those of a model. *)
Definition layer_params (lay : HANLayer) : list nat :=
  (gat_params <$> gat_layers lay) ++ [sa_params (semantic_attention lay)].

Definition model_params (m : HAN) : list nat :=
  mjoin (layer_params <$> layers m) ++ [lin_params (linear m)].

Lemma mjoin_cons {A} (l : list A) (ls : list (list A)) :
  mjoin (l :: ls) = l ++ mjoin ls.
Proof. done. Qed.

Section construction.
Context `{B : Backend}.

Lemma HANLayer_init_params mps i o h d s self s' :
  HANLayer_init mps i o h d s = (Ok self, s') →
  layer_params self = seq s (S (length mps)) ∧ s' = s + S (length mps).
Proof.
  intros (-> & -> & _)%HANLayer_init_Ok. unfold layer_params.
  split; [|lia]. rewrite seq_S. cbn [gat_layers semantic_attention sa_params].
  f_equal. rewrite <- list_fmap_compose. apply list_eq. intros k.
  rewrite list_lookup_fmap. by destruct (seq s (length mps) !! k).
Qed.

Lemma init_layers_params ls mps hid nh d s lays s' :
  init_layers ls mps hid nh d s = (Ok lays, s') →
  length lays = length ls ∧
  mjoin (layer_params <$> lays) = seq s (length ls * S (length mps)) ∧
  s' = s + length ls * S (length mps).
Proof.
  revert s lays s'. induction ls as [|l ls IH]; intros s lays s'.
  - intros [= <- <-]. simpl. split; [done|]. split; [done|lia].
  - simpl. py_unfold.
    destruct (index nh (l - 1)) as [prev|]; [|done].
    destruct (index nh l) as [cur|]; [|done].
    destruct (HANLayer_init mps (hid * prev) hid cur d s) as [[lay|e] s1] eqn:Hlay;
      [|done].
    apply HANLayer_init_params in Hlay as [Hp ->].
    destruct (init_layers ls mps hid nh d (s + S (length mps)))
      as [[rest|e] s2] eqn:Hrest; [|done].
    apply IH in Hrest as (Hlen & Hps & ->). intros [= <- <-].
    split; [simpl; by rewrite Hlen|]. split; [|simpl; lia].
    rewrite fmap_cons, mjoin_cons, Hp, Hps, <- seq_app. done.
Qed.

Lemma HAN_init_params mps cat in_size hid out nh d s m s' :
  HAN_init mps cat in_size hid out nh d s = (Ok m, s') →
  model_params m = seq s (length nh * S (length mps) + 1) ∧
  s' = s + (length nh * S (length mps) + 1).
Proof.
  unfold HAN_init. py_unfold.
  destruct (index nh 0) as [first|] eqn:Hfirst; [|done].
  destruct (HANLayer_init mps in_size hid first d s) as [[lay0|e] s1] eqn:Hlay;
    [|done].
  apply HANLayer_init_params in Hlay as [Hp ->].
  destruct (init_layers (seq 1 (length nh - 1)) mps hid nh d (s + S (length mps)))
    as [[rest|e] s2] eqn:Hrest; [|done].
  apply init_layers_params in Hrest as (_ & Hps & ->). rewrite length_seq in *.
  destruct (index_last nh) as [final|]; [|done].
  intros [= <- <-]. unfold model_params.
  cbn [layers linear lin_params].
  assert (length nh = S (length nh - 1)) as Hlen.
  { unfold index in Hfirst. destruct nh; [done|]. simpl. lia. }
  rewrite fmap_cons, mjoin_cons, Hp, Hps, <- seq_app.
  replace (length nh * S (length mps) + 1)
    with (S (S (length mps) + (length nh - 1) * S (length mps))) by nia.
  split; [|lia]. rewrite seq_S. do 2 f_equal. lia.
Qed.

(** X4. When the builder returns: over an empty [num_heads] it raises
    [IndexError] before any module exists, whatever the graph and the
    other arguments; it returns a model exactly when [num_heads] is not
    empty and the library accepts the attention modules of every layer,
    none being built when the schema yields no metapath; otherwise it
    raises the exception of the first layer whose modules are rejected. *)
Theorem build_model_from_args_num_heads (args : Args.t) (hg : DGLGraph) (s : nat) :
  (Args.num_heads args = [] →
     build_model_from_args args hg s = (Raise IndexError, s)) ∧
  ((∃ m s', build_model_from_args args hg s = (Ok m, s')) ↔
     Args.num_heads args ≠ [] ∧
     accepted (find_mps (canonical_etypes hg) (Args.category args))
       (Args.in_dim args) (Args.hidden_dim args) (Args.num_heads args)
       (Args.dropout args)) ∧
  (∀ l cur e,
     find_mps (canonical_etypes hg) (Args.category args) ≠ [] →
     Args.num_heads args !! l = Some cur →
     gat_init_error
       (layer_in_size (Args.in_dim args) (Args.hidden_dim args)
          (Args.num_heads args) l)
       (Args.hidden_dim args) cur (Args.dropout args) (Args.dropout args) = Some e →
     (∀ l' cur', (l' < l)%nat → Args.num_heads args !! l' = Some cur' →
        gat_accepted
          (layer_in_size (Args.in_dim args) (Args.hidden_dim args)
             (Args.num_heads args) l')
          (Args.hidden_dim args) cur' (Args.dropout args)) →
     (build_model_from_args args hg s).1 = Raise e).
Proof.
  unfold build_model_from_args. split_and!.
  - intros ->. apply HAN_init_empty_heads.
  - split.
    + by intros (m & s' & (_ & _ & ? & ?)%HAN_init_Ok).
    + intros [Hne Hacc].
      destruct (HAN_init_spec (find_mps (canonical_etypes hg) (Args.category args))
                  (Args.category args) (Args.in_dim args) (Args.hidden_dim args)
                  (Args.out_dim args) (Args.num_heads args) (Args.dropout args)
                  s Hne Hacc) as (m & s' & Hm & _).
      by exists m, s'.
  - intros l cur e Hmps Hcur He Hbefore. by eapply HAN_init_rejected.
Qed.

(** X5. No two modules of a model share parameters: a model over M metapaths
    and L layers owns the L * (M + 1) + 1 consecutive parameter blocks
    drawn during its construction, one per attention module, one per
    semantic attention, one for the linear head. *)
Theorem HAN_init_parameters (mps : list metapath) (cat : string)
    (in_size hid out : nat) (nh : list nat) (d : Q) (s : nat) (m : HAN) (s' : nat) :
  HAN_init mps cat in_size hid out nh d s = (Ok m, s') →
  NoDup (model_params m) ∧
  length (model_params m) = length nh * (length mps + 1) + 1 ∧
  (∀ p, p ∈ model_params m ↔ s ≤ p < s') ∧
  Forall (λ lay, NoDup (layer_params lay)) (layers m).
Proof.
  intros Hinit. pose proof Hinit as [Hps ->]%HAN_init_params.
  assert (NoDup (model_params m)) as Hnd by (rewrite Hps; apply NoDup_seq).
  split_and!.
  - done.
  - rewrite Hps, length_seq. nia.
  - intros p. rewrite Hps, elem_of_seq. lia.
  - unfold model_params in Hnd. apply NoDup_app in Hnd as (Hnd & _ & _).
    apply Forall_forall. intros lay Hlay.
    apply list_elem_of_lookup in Hlay as [k Hk].
    apply (take_drop_middle _ _ _) in Hk. rewrite <- Hk in Hnd.
    rewrite fmap_app, fmap_cons, join_app, mjoin_cons in Hnd.
    apply NoDup_app in Hnd as (_ & _ & Hnd). by apply NoDup_app in Hnd as (? & _).
Qed.

End construction.

(** ** The layer: projections that fail, stale and bounded caches *)

Section failures.
Context `{B : Backend}.
Implicit Types (self : HANLayer) (g : DGLGraph) (h : ftensor) (log : proj_log).

(** X6. When the projection of a metapath raises during the recomputation of
    the cache, the forward pass raises that exception at once: no later
    metapath is projected.  The layer is nevertheless left keyed to the
    graph, its cache holding only the projections made before the
    failure. *)
Theorem HANLayer_forward_projection_failure g h self log
    (pre : list metapath) (mp : metapath) (post : list metapath) (e : exn) :
  meta_paths self = pre ++ mp :: post →
  _cached_graph self ≠ Some (g_id g) →
  Forall (λ m, ∃ sg, metapath_reachable_graph g m = Ok sg) pre →
  metapath_reachable_graph g mp = Raise e →
  ∃ self',
    HANLayer_forward g h (self, log) =
      (Raise e, (self', log ++ ((λ m, (g_id g, m)) <$> pre ++ [mp]))) ∧
    _cached_graph self' = Some (g_id g) ∧
    (∀ m, _cached_coalesced_graph self' !! m =
          if decide (m ∈ pre) then to_option (metapath_reachable_graph g m)
          else None) ∧
    _cached_coalesced_graph self' !! mp = None.
Proof.
  intros Hmps Hmiss Hpre Hmp.
  destruct (HANLayer_forward_fail g h self log pre mp post e Hmps Hmiss Hpre Hmp)
    as (c & Hrun & Hc).
  eexists. split; [exact Hrun|]. split; [done|]. split; [done|]. simpl.
  rewrite Hc. apply decide_False. by eapply failed_not_among.
Qed.

(** X7. After such a failure the layer is stuck on that graph object: every
    later forward pass with it takes the cached branch, calls no
    projection, changes nothing and raises again, with [KeyError] when it
    was the first metapath whose projection failed. *)
Theorem HANLayer_forward_after_projection_failure g h self log
    (pre : list metapath) (mp : metapath) (post : list metapath) (e : exn)
    g2 h2 :
  meta_paths self = pre ++ mp :: post →
  _cached_graph self ≠ Some (g_id g) →
  Forall (λ m, ∃ sg, metapath_reachable_graph g m = Ok sg) pre →
  metapath_reachable_graph g mp = Raise e →
  g_id g2 = g_id g →
  (∀ out,
     (HANLayer_forward g2 h2 (HANLayer_forward g h (self, log)).2).1 ≠ Ok out) ∧
  (HANLayer_forward g2 h2 (HANLayer_forward g h (self, log)).2).2 =
    (HANLayer_forward g h (self, log)).2 ∧
  (pre = [] →
     (HANLayer_forward g2 h2 (HANLayer_forward g h (self, log)).2).1 =
       Raise KeyError).
Proof.
  intros Hmps Hmiss Hpre Hmp Hid.
  destruct (HANLayer_forward_fail g h self log pre mp post e Hmps Hmiss Hpre Hmp)
    as (c & -> & Hc).
  cbn [snd]. rewrite HANLayer_forward_hit by (simpl; by rewrite Hid).
  cbn [fst snd].
  assert (c !! mp = None) as Hnone.
  { rewrite Hc. apply decide_False. by eapply failed_not_among. }
  split; [|split; [done|]].
  - intros out Hout. unfold combine in Hout.
    apply result_bind_Ok in Hout as (embs & Hembs & _).
    unfold semantic_embeddings in Hembs. simpl in Hembs. rewrite Hmps in Hembs.
    destruct (embed_loop_lookup _ _ _ _ (length pre) mp Hembs) as (emb & _ & Hb).
    { by rewrite list_lookup_middle. }
    apply branch_Ok in Hb as (sg & _ & _ & Hsg & _). simpl in Hsg. congruence.
  - intros ->. unfold combine, semantic_embeddings. simpl. rewrite Hmps.
    simpl. by rewrite Hnone.
Qed.

(** X8. On a cache hit the modules run over the projections of the graph the
    cache was built from: a graph object changed in place since (same
    identity, other contents) is not projected again. *)
Theorem HANLayer_forward_stale g h self log (out : ftensor) (st1 : layer_st)
    g2 h2 (out2 : ftensor) (st2 : layer_st) :
  _cached_graph self ≠ Some (g_id g) →
  HANLayer_forward g h (self, log) = (Ok out, st1) →
  g_id g2 = g_id g →
  HANLayer_forward g2 h2 st1 = (Ok out2, st2) →
  st2 = st1 ∧
  ∃ embs,
    semantic_embeddings st1.1 h2 = Ok embs ∧
    ∀ k mp, meta_paths self !! k = Some mp →
      ∃ conv sg t emb,
        gat_layers self !! k = Some conv ∧
        metapath_reachable_graph g mp = Ok sg ∧
        GATConv_forward conv sg h2 = Ok t ∧ flatten1 t = Ok emb ∧
        embs !! k = Some emb.
Proof.
  intros Hmiss Hrun Hid Hrun2.
  assert (Forall (λ mp, ∃ sg, metapath_reachable_graph g mp = Ok sg)
            (meta_paths self)) as Hproj.
  { rewrite HANLayer_forward_miss in Hrun by done.
    destruct (project_all g (meta_paths self) (invalidated self g, log))
      as [[u|e] st'] eqn:Hp; [|done].
    by eapply project_all_Ok_inv. }
  destruct (HANLayer_forward_other g h self log Hmiss Hproj) as (_ & Hkey & Hcache).
  rewrite Hrun in Hkey, Hcache. cbn [fst snd] in Hkey, Hcache.
  destruct st1 as [self1 log1]. cbn [fst snd] in *.
  apply HANLayer_forward_frame in Hrun as (Hgat & _ & Hmps & _).
  rewrite HANLayer_forward_hit in Hrun2 by (by rewrite Hid).
  injection Hrun2 as Hout2 <-. split; [done|].
  unfold combine in Hout2. apply result_bind_Ok in Hout2 as (embs & Hembs & _).
  exists embs. split; [done|]. intros k mp Hk.
  unfold semantic_embeddings in Hembs. rewrite Hmps in Hembs.
  destruct (embed_loop_lookup _ _ _ _ k mp Hembs Hk) as (emb & Hemb & Hb).
  apply branch_Ok in Hb as (sg & conv & t & Hsg & Hconv & Ht & Hflat).
  exists conv, sg, t, emb. rewrite <- Hgat. split_and!; try done.
  rewrite Hcache in Hsg. case_decide; [|done].
  by destruct (metapath_reachable_graph g mp) as [sg'|]; simplify_eq/=.
Qed.

(** X9. What a forward pass leaves behind does not depend on the features:
    the layer's key and cache and the projections called are decided by the
    graph alone, also when the pass raises. *)
Theorem HANLayer_forward_state_ignores_features g (h1 h2 : ftensor) self log :
  (HANLayer_forward g h1 (self, log)).2 = (HANLayer_forward g h2 (self, log)).2.
Proof.
  destruct (decide (_cached_graph self = Some (g_id g))) as [Hhit|Hmiss].
  - by rewrite !HANLayer_forward_hit.
  - rewrite !HANLayer_forward_miss by done.
    by destruct (project_all g (meta_paths self) (invalidated self g, log))
      as [[u|e] st'].
Qed.

End failures.

Section bounded.
Context `{B : Backend}.
Implicit Types (self : HANLayer) (g : DGLGraph) (h : ftensor) (log : proj_log).

(** The layer over a sequence of forward passes, each on its own graph
    and features, the caller carrying on after a pass that raises. *)
Fixpoint forward_seq (calls : list (DGLGraph * ftensor)) (st : layer_st)
    : layer_st :=
  match calls with
  | [] => st
  | (g, h) :: rest => forward_seq rest (HANLayer_forward g h st).2
  end.

Lemma project_all_dom g mps self log r self' log' :
  project_all g mps (self, log) = (r, (self', log')) →
  ∀ mp, is_Some (_cached_coalesced_graph self' !! mp) →
        is_Some (_cached_coalesced_graph self !! mp) ∨ mp ∈ mps.
Proof.
  revert self log. induction mps as [|m rest IH]; intros self log.
  - intros [= <- <- <-] mp Hmp. by left.
  - rewrite project_all_cons.
    destruct (metapath_reachable_graph g m) as [sg|e].
    + intros Hrest mp Hmp. destruct (IH _ _ Hrest mp Hmp) as [Hold|Hin].
      * simpl in Hold. destruct (decide (mp = m)) as [->|Hne]; [set_solver|].
        rewrite lookup_insert_ne in Hold by done. by left.
      * set_solver.
    + intros [= <- <- <-] mp Hmp. by left.
Qed.

Lemma HANLayer_forward_dom g h self log :
  (∀ mp, is_Some (_cached_coalesced_graph self !! mp) → mp ∈ meta_paths self) →
  ∀ mp, is_Some (_cached_coalesced_graph (HANLayer_forward g h (self, log)).2.1 !! mp) →
        mp ∈ meta_paths self.
Proof.
  intros Hinv mp.
  destruct (decide (_cached_graph self = Some (g_id g))) as [Hhit|Hmiss].
  - rewrite HANLayer_forward_hit by done. apply Hinv.
  - rewrite HANLayer_forward_miss by done.
    destruct (project_all g (meta_paths self) (invalidated self g, log))
      as [r [self' log']] eqn:Hp.
    pose proof (project_all_dom _ _ _ _ _ _ _ Hp mp) as Hdom.
    destruct r; cbn [fst snd]; intros Hmp; destruct (Hdom Hmp) as [Hold|Hin];
      try done; simpl in Hold; rewrite lookup_empty in Hold; by destruct Hold.
Qed.

Lemma forward_seq_inv calls self log :
  (∀ mp, is_Some (_cached_coalesced_graph self !! mp) → mp ∈ meta_paths self) →
  meta_paths (forward_seq calls (self, log)).1 = meta_paths self ∧
  gat_layers (forward_seq calls (self, log)).1 = gat_layers self ∧
  ∀ mp, is_Some (_cached_coalesced_graph (forward_seq calls (self, log)).1 !! mp) →
        mp ∈ meta_paths self.
Proof.
  revert self log. induction calls as [|[g h] calls IH]; intros self log Hinv;
    [done|].
  simpl. pose proof (HANLayer_forward_dom g h self log Hinv) as Hnext.
  destruct (HANLayer_forward g h (self, log)) as [r [self1 log1]] eqn:Hrun.
  apply HANLayer_forward_frame in Hrun as (Hgat & _ & Hmps & _).
  cbn [fst snd] in *. rewrite <- Hmps in Hnext.
  destruct (IH self1 log1 Hnext) as (-> & -> & Hdom).
  rewrite Hmps in Hdom. done.
Qed.

Lemma length_remove_dups (mps : list metapath) :
  (length (remove_dups mps) ≤ length mps)%nat.
Proof. induction mps as [|mp mps IH]; simpl; [done|]. case_decide; simpl; lia. Qed.

Lemma size_bounded (c : gmap metapath homograph) (mps : list metapath) :
  (∀ mp, is_Some (c !! mp) → mp ∈ mps) → (size c ≤ length mps)%nat.
Proof.
  intros Hdom. rewrite <- size_dom.
  trans (size (list_to_set (C := gset metapath) (remove_dups mps))).
  - apply subseteq_size. intros mp Hmp. apply elem_of_dom in Hmp.
    apply elem_of_list_to_set, elem_of_remove_dups. by apply Hdom.
  - rewrite size_list_to_set by apply NoDup_remove_dups.
    apply length_remove_dups.
Qed.

(** X10. The cache never outgrows the metapath list: whatever graphs a
    layer the constructor returned is run on afterwards, and whether the
    passes return or raise, its cache holds subgraphs for configured
    metapaths only, at most one per metapath; projections of graphs seen
    earlier do not pile up. *)
Theorem HANLayer_cache_bounded (mps : list metapath)
    (in_size out_size layer_num_heads : nat) (dropout : Q) (s : nat)
    (self : HANLayer) (s' : nat) (calls : list (DGLGraph * ftensor)) log :
  HANLayer_init mps in_size out_size layer_num_heads dropout s = (Ok self, s') →
  meta_paths (forward_seq calls (self, log)).1 = mps ∧
  length (gat_layers (forward_seq calls (self, log)).1) = length mps ∧
  (∀ mp, is_Some (_cached_coalesced_graph (forward_seq calls (self, log)).1 !! mp) →
         mp ∈ mps) ∧
  (size (_cached_coalesced_graph (forward_seq calls (self, log)).1) ≤ length mps)%nat.
Proof.
  intros Hinit.
  apply HANLayer_init_configured in Hinit as ([Hmps Hcount _ _] & _ & Hempty).
  edestruct (forward_seq_inv calls) as (Hm & Hg & Hdom).
  { intros mp. rewrite Hempty, lookup_empty. by intros []. }
  rewrite Hm, Hg. rewrite Hmps in Hdom. split_and!; try done.
  by apply size_bounded.
Qed.

End bounded.

(** ** The model: progress, projection calls, reuse *)

Section models.
Context `{B : Backend} `{!BackendSpec B}.
Implicit Types (self : HAN) (g : DGLGraph) (h : ftensor) (log : proj_log).

(** The projection calls a forward pass on [g] costs layer [lay]. *)
Definition projections_due g (lay : HANLayer) : proj_log :=
  if decide (_cached_graph lay = Some (g_id g)) then []
  else (λ mp, (g_id g, mp)) <$> meta_paths lay.

Definition keyed_to g (lay : HANLayer) : Prop :=
  _cached_graph lay = Some (g_id g).

Lemma HANLayer_forward_Ok_log g h (lay : HANLayer) log out lay' log' :
  HANLayer_forward g h (lay, log) = (Ok out, (lay', log')) →
  log' = log ++ projections_due g lay.
Proof.
  unfold projections_due.
  destruct (decide (_cached_graph lay = Some (g_id g))) as [Hhit|Hmiss].
  - rewrite HANLayer_forward_hit by done. intros [= _ _ <-]. by rewrite app_nil_r.
  - intros Hrun.
    assert (Forall (λ mp, ∃ sg, metapath_reachable_graph g mp = Ok sg)
              (meta_paths lay)) as Hproj.
    { rewrite HANLayer_forward_miss in Hrun by done.
      destruct (project_all g (meta_paths lay) (invalidated lay g, log))
        as [[u|e] st'] eqn:Hp; [|done].
      by eapply project_all_Ok_inv. }
    destruct (HANLayer_forward_other g h lay log Hmiss Hproj) as (Hlog & _).
    by rewrite Hrun in Hlog.
Qed.

Lemma forward_layers_Ok_log g ls h log hL ls' log' :
  forward_layers g ls h log = (Ok hL, (ls', log')) →
  log' = log ++ mjoin (projections_due g <$> ls) ∧ Forall (keyed_to g) ls'.
Proof.
  revert h log ls'. induction ls as [|lay rest IH]; intros h log ls'.
  - intros [= _ <- <-]. by rewrite app_nil_r.
  - rewrite forward_layers_cons.
    destruct (HANLayer_forward g h (lay, log)) as [[h'|e] [lay' log1]] eqn:Hlay;
      [|done].
    destruct (forward_layers g rest h' log1) as [r1 [rest' log2]] eqn:Hrest.
    intros [= -> <- <-]. apply IH in Hrest as [-> Hkeyed].
    pose proof Hlay as ->%HANLayer_forward_Ok_log.
    apply HANLayer_forward_frame in Hlay as (_ & _ & _ & Hkey).
    split; [|by constructor]. simpl. by rewrite app_assoc.
Qed.

Lemma projections_due_fresh g (ls : list HANLayer) (mps : list metapath) :
  Forall (λ lay, ¬ keyed_to g lay ∧ meta_paths lay = mps) ls →
  length (mjoin (projections_due g <$> ls)) = length ls * length mps.
Proof.
  induction 1 as [|lay rest [Hmiss Hmps] _ IH]; [done|].
  rewrite fmap_cons.
  change (length (projections_due g lay ++ mjoin (projections_due g <$> rest)) =
          length (lay :: rest) * length mps).
  rewrite length_app, IH. simpl. f_equal.
  unfold projections_due, keyed_to in *. rewrite decide_False by done.
  by rewrite length_fmap, Hmps.
Qed.

(** How far a run of the stack gets: the layers it has run are keyed to
    the graph, the others are as they were. *)
Lemma forward_layers_progress g ls h log r ls' log' :
  forward_layers g ls h log = (r, (ls', log')) →
  ∃ k, (k ≤ length ls)%nat ∧ length ls' = length ls ∧
       Forall (keyed_to g) (take k ls') ∧ drop k ls' = drop k ls ∧
       ((∃ hL, r = Ok hL) → k = length ls) ∧
       (ls ≠ [] → (0 < k)%nat).
Proof.
  revert h log ls' log'. induction ls as [|lay rest IH]; intros h log ls' log'.
  - intros [= <- <- <-]. exists 0. by split_and!.
  - rewrite forward_layers_cons.
    destruct (HANLayer_forward g h (lay, log)) as [[h'|e] [lay' log1]] eqn:Hlay.
    + destruct (forward_layers g rest h' log1) as [r1 [rest' log2]] eqn:Hrest.
      intros [= <- <- <-].
      apply IH in Hrest as (k & Hk & Hlen & Hkeyed & Hdrop & Hok & _).
      apply HANLayer_forward_frame in Hlay as (_ & _ & _ & Hkey).
      exists (S k). simpl. split_and!; try done; try lia.
      * by constructor.
      * intros Hr. by rewrite Hok.
    + intros [= <- <- <-].
      apply HANLayer_forward_frame in Hlay as (_ & _ & _ & Hkey).
      exists 1. simpl. split_and!; try done; try lia.
      * rewrite take_0. by repeat constructor.
      * by intros [? ?].
Qed.

Lemma forward_layers_again g ls h log :
  Forall (keyed_to g) ls → (forward_layers g ls h log).2 = (ls, log).
Proof.
  intros Hkeyed. revert h. induction Hkeyed as [|lay rest Hkey _ IH]; intros h;
    [done|].
  rewrite forward_layers_cons, HANLayer_forward_hit by done.
  destruct (combine lay h) as [h'|e]; [|done].
  specialize (IH h').
  destruct (forward_layers g rest h' log) as [r [rest' log']].
  simpl in IH. by injection IH as -> ->.
Qed.

(** The two ways a run of the stack ends: every layer returned, or the
    layers before one returned, that one raised, and the run ended there. *)
Lemma forward_layers_cases g ls h log r ls' log' :
  forward_layers g ls h log = (r, (ls', log')) →
  (∃ hL, r = Ok hL ∧ Forall (keyed_to g) ls') ∨
  (∃ ls1 lay ls2 hk ls1' logk e lay',
     ls = ls1 ++ lay :: ls2 ∧
     forward_layers g ls1 h log = (Ok hk, (ls1', logk)) ∧
     HANLayer_forward g hk (lay, logk) = (Raise e, (lay', log')) ∧
     r = Raise e ∧ ls' = ls1' ++ lay' :: ls2).
Proof.
  revert h log r ls' log'. induction ls as [|lay rest IH]; intros h log r ls' log'.
  - intros [= <- <- <-]. left. by exists h.
  - rewrite forward_layers_cons.
    destruct (HANLayer_forward g h (lay, log)) as [[h'|e] [lay' log1]] eqn:Hlay.
    + destruct (forward_layers g rest h' log1) as [r1 [rest' log2]] eqn:Hrest.
      intros [= <- <- <-].
      destruct (IH _ _ _ _ _ Hrest) as
        [(hL & -> & Hkeyed)
        |(ls1 & lay1 & ls2 & hk & ls1' & logk & e & lay1' & -> & Hbefore & Hraise
          & -> & ->)].
      * left. exists hL. split; [done|]. constructor; [|done].
        by apply HANLayer_forward_frame in Hlay as (_ & _ & _ & ?).
      * right. exists (lay :: ls1), lay1, ls2, hk, (lay' :: ls1'), logk, e, lay1'.
        split_and!; try done.
        by rewrite forward_layers_cons, Hlay, Hbefore.
    + intros [= <- <- <-]. right.
      exists [], lay, rest, h, [], log, e, lay'. by split_and!.
Qed.

(** X11. A forward pass of the model runs its layers front to back and
    stops at the first that raises: whatever the outcome, some front part
    of the stack is left keyed to the graph and the rest untouched, as are
    the category and the linear head; the whole stack has run when the pass
    returns, and not even the first layer when the category's features
    are missing from the graph, in which case the lookup's exception is the
    result whatever was passed for [h].  A pass that raises has failed in
    the feature lookup; or in one layer, the layers before it having
    returned, its exception being the result, and the layers after it and
    the trace being as that layer left them; or in the linear head after
    the whole stack. *)
Theorem HAN_forward_progress g (hopt : option ftensor) self log :
  (∃ k, (k ≤ length (layers self))%nat ∧
     Forall (keyed_to g) (take k (layers (HAN_forward g hopt (self, log)).2.1)) ∧
     drop k (layers (HAN_forward g hopt (self, log)).2.1) = drop k (layers self) ∧
     ((∃ res, (HAN_forward g hopt (self, log)).1 = Ok res) →
        k = length (layers self))) ∧
  length (layers (HAN_forward g hopt (self, log)).2.1) = length (layers self) ∧
  category (HAN_forward g hopt (self, log)).2.1 = category self ∧
  linear (HAN_forward g hopt (self, log)).2.1 = linear self ∧
  (∀ e, nodes_data g (category self) "h" = Raise e →
     HAN_forward g hopt (self, log) = (Raise e, (self, log))) ∧
  (∀ e (st' : model_st),
     HAN_forward g hopt (self, log) = (Raise e, st') →
     (nodes_data g (category self) "h" = Raise e ∧ st' = (self, log)) ∨
     (∃ h0 ls1 lay ls2 hk ls1' logk lay',
        nodes_data g (category self) "h" = Ok h0 ∧
        layers self = ls1 ++ lay :: ls2 ∧
        forward_layers g ls1 h0 log = (Ok hk, (ls1', logk)) ∧
        HANLayer_forward g hk (lay, logk) = (Raise e, (lay', st'.2)) ∧
        layers st'.1 = ls1' ++ lay' :: ls2) ∨
     (∃ h0 hL,
        nodes_data g (category self) "h" = Ok h0 ∧
        forward_layers g (layers self) h0 log = (Ok hL, (layers st'.1, st'.2)) ∧
        Forall (keyed_to g) (layers st'.1) ∧
        Linear_forward (linear self) hL = Raise e)).
Proof.
  split_and!.
  - rewrite HAN_forward_unfold.
    destruct (nodes_data g (category self) "h") as [h0|e0].
    + destruct (forward_layers g (layers self) h0 log) as [r [ls' log']] eqn:Hls.
      apply forward_layers_progress in Hls
        as (k & Hk & Hlen & Hkeyed & Hdrop & Hok & _).
      exists k. destruct r as [hL|e].
      * destruct (Linear_forward (linear self) hL) as [out|e]; cbn [fst snd];
          (split_and!; try done; by intros _; apply Hok; exists hL).
      * cbn [fst snd]. split_and!; try done. by intros [? ?].
    + exists 0. cbn [fst snd]. split_and!; [lia|by rewrite take_0|done|].
      by intros [? ?].
  - destruct (HAN_forward_keeps g hopt self log) as (_ & _ & Hframe).
    symmetry. by eapply Forall2_length.
  - by destruct (HAN_forward_keeps g hopt self log) as (? & _).
  - by destruct (HAN_forward_keeps g hopt self log) as (_ & ? & _).
  - intros e He. by rewrite HAN_forward_unfold, He.
  - intros e st'. rewrite HAN_forward_unfold.
    destruct (nodes_data g (category self) "h") as [h0|e0].
    + destruct (forward_layers g (layers self) h0 log) as [r [ls' log']] eqn:Hls.
      pose proof (forward_layers_cases _ _ _ _ _ _ _ Hls) as
        [(hL & -> & Hkeyed)
        |(ls1 & lay & ls2 & hk & ls1' & logk & e1 & lay' & Hsplit & Hbefore
          & Hraise & -> & ->)].
      * destruct (Linear_forward (linear self) hL) as [out|e1] eqn:Hlin; [done|].
        intros [= <- <-]. right. right. exists h0, hL. by split_and!.
      * intros [= <- <-]. right. left.
        exists h0, ls1, lay, ls2, hk, ls1', logk, lay'. by split_and!.
    + intros [= <- <-]. by left.
Qed.

(** X12. What a forward pass that returns costs in projections: every layer
    not yet keyed to the graph projects each of its metapaths once, layer
    after layer; a layer already keyed to it projects nothing.  A model
    of L layers over M metapaths thus makes L * M calls on a graph it has
    not seen, each layer keeping its own copy of the projections.  All
    layers are keyed to the graph afterwards. *)
Theorem HAN_forward_projection_calls g (hopt : option ftensor) self log
    (res : gmap string ftensor) (st' : model_st) :
  HAN_forward g hopt (self, log) = (Ok res, st') →
  st'.2 = log ++ mjoin (projections_due g <$> layers self) ∧
  Forall (keyed_to g) (layers st'.1) ∧
  (∀ mps,
     Forall (λ lay, ¬ keyed_to g lay ∧ meta_paths lay = mps) (layers self) →
     length st'.2 = length log + length (layers self) * length mps).
Proof.
  rewrite HAN_forward_unfold.
  destruct (nodes_data g (category self) "h") as [h0|e0]; [|done].
  destruct (forward_layers g (layers self) h0 log) as [[hL|e] [ls' log']] eqn:Hls;
    [|done].
  apply forward_layers_Ok_log in Hls as [-> Hkeyed].
  destruct (Linear_forward (linear self) hL) as [out|e]; [|done].
  intros [= _ <-]. cbn [fst snd]. split_and!; try done.
  intros mps Hfresh. rewrite length_app. f_equal.
  by apply projections_due_fresh.
Qed.

(** X13. After a forward pass that returned on [g], a forward pass with the
    same graph object, whatever its contents by then and whatever is
    passed for [h], changes no layer and calls no projection. *)
Theorem HAN_forward_again g (hopt : option ftensor) self log
    (res : gmap string ftensor) (st' : model_st) g2 (hopt2 : option ftensor) :
  HAN_forward g hopt (self, log) = (Ok res, st') →
  g_id g2 = g_id g →
  (HAN_forward g2 hopt2 st').2 = st'.
Proof.
  intros Hrun Hid.
  assert (Forall (keyed_to g2) (layers st'.1)) as Hkeyed.
  { rewrite HAN_forward_unfold in Hrun.
    destruct (nodes_data g (category self) "h") as [h0|e0]; [|done].
    destruct (forward_layers g (layers self) h0 log) as [[hL|e] [ls' log']] eqn:Hls;
      [|done].
    apply forward_layers_Ok_log in Hls as [_ Hkeyed].
    destruct (Linear_forward (linear self) hL) as [out|e]; [|done].
    injection Hrun as _ <-. unfold keyed_to in *. by rewrite Hid. }
  destruct st' as [[cat ls lin] log']. cbn [fst snd layers] in *.
  rewrite HAN_forward_unfold. cbn [category layers linear].
  destruct (nodes_data g2 cat "h") as [h0|e0]; [|done].
  pose proof (forward_layers_again g2 ls h0 log' Hkeyed) as Hsame.
  destruct (forward_layers g2 ls h0 log') as [r [ls2 log2]].
  simpl in Hsame. injection Hsame as -> ->.
  destruct r as [hL|e]; [|done].
  by destruct (Linear_forward lin hL).
Qed.

(** X14. On a schema with no round trip from the target category the
    builder finds no metapath, and conversely; it then still returns a
    model, one without attention modules, and every forward pass of that
    model, the first and any later one, on a graph holding the category's
    features raises in its first layer. *)
Theorem build_model_no_round_trip (args : Args.t) (hg : DGLGraph) (s : nat) :
  (find_mps (canonical_etypes hg) (Args.category args) = [] ↔
   ∀ e1 e2, e1 ∈ canonical_etypes hg → e2 ∈ canonical_etypes hg →
            ¬ round_trip (Args.category args) e1 e2) ∧
  (Args.num_heads args ≠ [] →
   find_mps (canonical_etypes hg) (Args.category args) = [] →
   ∃ m s',
     build_model_from_args args hg s = (Ok m, s') ∧
     Forall (λ lay, gat_layers lay = []) (layers m) ∧
     ∀ calls g hopt log h0,
       nodes_data g (Args.category args) "h" = Ok h0 →
       (HAN_forward g hopt (HAN_forward_seq calls (m, log))).1 =
         Raise (RuntimeError "stack expects a non-empty TensorList")).
Proof.
  split; [apply find_mps_nil|]. intros Hnh Hnil.
  unfold build_model_from_args. rewrite Hnil.
  destruct (HAN_init_spec [] (Args.category args) (Args.in_dim args)
              (Args.hidden_dim args) (Args.out_dim args) (Args.num_heads args)
              (Args.dropout args) s Hnh) as (m & s' & Hinit & Hbuilt & _);
    [by left|].
  destruct Hbuilt as [Hcat Hcount Hlayers _ _].
  assert (no_metapaths m) as Hno.
  { split.
    - intros Hnil'. rewrite Hnil' in Hcount. by destruct (Args.num_heads args).
    - apply Forall_lookup. intros l lay Hl.
      by destruct (Hlayers l lay Hl) as (cur & _ & [? _ _ _]). }
  exists m, s'. split; [done|]. split.
  - apply Forall_lookup. intros l lay Hl.
    destruct (Hlayers l lay Hl) as (cur & _ & [_ Hc _ _]).
    by apply nil_length_inv.
  - intros calls g hopt log h0 Hh0.
    destruct (HAN_forward_seq_no_metapaths calls m log Hno) as [Hno' Hcat'].
    destruct (HAN_forward_seq calls (m, log)) as [m' log'] eqn:Hseq.
    cbn [fst snd] in *.
    apply (HAN_forward_no_metapaths g hopt m' log' h0 Hno').
    by rewrite Hcat', Hcat.
Qed.

End models.

(** ** Concrete runs of the further properties *)

Section more_runs.
Import Demo.

(** A configuration without head counts, and the model of two layers over
    the two metapaths of [dblp]. *)
Definition no_heads : Args.t := Args.mk "author" 4 8 3 [] (1 # 2).

(** Configurations the library rejects: a dropout probability of 3/2, and
    a hidden width of zero. *)
Definition bad_dropout : Args.t := Args.mk "author" 4 8 3 [2] (3 # 2).
Definition no_width : Args.t := Args.mk "author" 4 0 3 [2] (1 # 2).

Definition two_layers : HAN :=
  mkHAN "author"
    [layer2;
     mkHANLayer
       [mkGATConv 16 8 3 (1 # 2) (1 # 2) (Some elu) true 3;
        mkGATConv 16 8 3 (1 # 2) (1 # 2) (Some elu) true 4]
       (mkSemanticAttention 24 5)
       [[write; written_by]; [affiliated; employs]] None ∅]
    (mkLinear 24 3 6).

Lemma two_layers_init :
  HAN_init [[write; written_by]; [affiliated; employs]] "author" 4 8 3 [2; 3]
    (1 # 2) 0 = (Ok two_layers, 7).
Proof. reflexivity. Qed.

Lemma build_model_from_args_num_heads_witness :
  build_model_from_args (B := backend) no_heads (acm 1%positive) 0 =
    (Raise IndexError, 0) ∧
  (∃ m s', build_model_from_args (B := backend) args (acm 1%positive) 0 = (Ok m, s')) ∧
  (build_model_from_args (B := backend) bad_dropout (acm 1%positive) 0).1 =
    Raise (ValueError "dropout probability has to be between 0 and 1") ∧
  (build_model_from_args (B := backend) no_width (acm 1%positive) 0).1 =
    Raise ZeroDivisionError.
Proof.
  split_and!.
  - apply (build_model_from_args_num_heads (B := backend) no_heads (acm 1%positive) 0).
    reflexivity.
  - apply (build_model_from_args_num_heads (B := backend) args (acm 1%positive) 0).
    split; [done|]. right. intros [|l] cur Hl; [|done]. injection Hl as <-.
    reflexivity.
  - apply (build_model_from_args_num_heads (B := backend) bad_dropout
             (acm 1%positive) 0) with (l := 0) (cur := 2).
    + done.
    + reflexivity.
    + reflexivity.
    + intros l' cur' Hl'. lia.
  - apply (build_model_from_args_num_heads (B := backend) no_width
             (acm 1%positive) 0) with (l := 0) (cur := 2).
    + done.
    + reflexivity.
    + reflexivity.
    + intros l' cur' Hl'. lia.
Defined.

Lemma HAN_init_parameters_witness :
  NoDup (model_params two_layers) ∧ length (model_params two_layers) = 7.
Proof.
  destruct (HAN_init_parameters _ _ _ _ _ _ _ _ _ _ two_layers_init)
    as (Hnd & Hlen & _).
  split; [exact Hnd|exact Hlen].
Defined.

Lemma find_mps_mirror_witness :
  [written_by; write] ∈ find_mps (canonical_etypes (dblp 1%positive)) "paper".
Proof.
  apply (find_mps_mirror (canonical_etypes (dblp 1%positive)) "author"
           write written_by).
  apply list_elem_of_here.
Defined.

Lemma build_model_no_round_trip_witness :
  ∃ m s',
    build_model_from_args (B := backend) args (one_way 1%positive) 0 = (Ok m, s') ∧
    Forall (λ lay, gat_layers lay = []) (layers m) ∧
    (HAN_forward (B := backend) (one_way 1%positive) None (m, [])).1 =
      Raise (RuntimeError "stack expects a non-empty TensorList") ∧
    (HAN_forward (B := backend) (one_way 1%positive) None
       (HAN_forward (B := backend) (one_way 1%positive) None (m, [])).2).1 =
      Raise (RuntimeError "stack expects a non-empty TensorList").
Proof.
  destruct (build_model_no_round_trip (B := backend) args (one_way 1%positive) 0)
    as [_ Hbuild].
  destruct Hbuild as (m & s' & Hm & Hnone & Hraise); [done|reflexivity|].
  exists m, s'. split; [done|]. split; [done|]. split.
  - apply (Hraise [] (one_way 1%positive) None [] author_features). reflexivity.
  - apply (Hraise [(one_way 1%positive, None)] (one_way 1%positive) None []
             author_features).
    reflexivity.
Defined.

Lemma HANLayer_forward_projection_failure_witness :
  ∃ e self',
    HANLayer_forward (B := backend) (acm 1%positive) author_features (layer2, []) =
      (Raise e,
       (self', [(1%positive, [write; written_by]);
                (1%positive, [affiliated; employs])])) ∧
    _cached_graph self' = Some 1%positive ∧
    _cached_coalesced_graph self' !! [affiliated; employs] = None.
Proof.
  exists (DGLError "Edge type does not exist").
  destruct (HANLayer_forward_projection_failure (B := backend)
              (acm 1%positive) author_features layer2 []
              [[write; written_by]] [affiliated; employs] []
              (DGLError "Edge type does not exist"))
    as (self' & Hrun & Hkey & _ & Hnone).
  - reflexivity.
  - done.
  - constructor; [|constructor]. eexists. reflexivity.
  - reflexivity.
  - exists self'. split; [exact Hrun|]. split; [exact Hkey|exact Hnone].
Defined.

Lemma HANLayer_forward_after_projection_failure_witness :
  (∀ out,
     (HANLayer_forward (B := backend) (dblp 1%positive) author_features
        (HANLayer_forward (B := backend) (acm 1%positive) author_features
           (layer2, [])).2).1 ≠ Ok out) ∧
  (HANLayer_forward (B := backend) (one_way 1%positive) author_features
     (HANLayer_forward (B := backend) (one_way 1%positive) author_features
        (layer1, [])).2).1 = Raise KeyError.
Proof.
  split.
  - apply (HANLayer_forward_after_projection_failure (B := backend)
             (acm 1%positive) author_features layer2 []
             [[write; written_by]] [affiliated; employs] []
             (DGLError "Edge type does not exist")).
    + reflexivity.
    + done.
    + constructor; [|constructor]. eexists. reflexivity.
    + reflexivity.
    + reflexivity.
  - apply (HANLayer_forward_after_projection_failure (B := backend)
             (one_way 1%positive) author_features layer1 []
             [] [write; written_by] []
             (DGLError "Edge type does not exist")).
    + reflexivity.
    + done.
    + constructor.
    + reflexivity.
    + reflexivity.
    + reflexivity.
Defined.

Lemma HANLayer_forward_stale_witness :
  ∃ out st1 out2,
    HANLayer_forward (B := backend) (acm 1%positive) author_features (layer1, []) =
      (Ok out, st1) ∧
    HANLayer_forward (B := backend) (one_way 1%positive) author_features st1 =
      (Ok out2, st1) ∧
    ∃ sg, metapath_reachable_graph (acm 1%positive) [write; written_by] = Ok sg ∧
          _cached_coalesced_graph st1.1 !! [write; written_by] = Some sg.
Proof.
  assert (∃ out st1,
            HANLayer_forward (B := backend) (acm 1%positive) author_features
              (layer1, []) = (Ok out, st1)) as (out & st1 & Hrun).
  { eexists _, _. reflexivity. }
  assert (∃ out2 st2,
            HANLayer_forward (B := backend) (one_way 1%positive) author_features
              st1 = (Ok out2, st2)) as (out2 & st2 & Hrun2).
  { injection Hrun as _ <-. eexists _, _. reflexivity. }
  destruct (HANLayer_forward_stale (B := backend) (acm 1%positive) author_features
              layer1 [] out st1 (one_way 1%positive) author_features out2 st2)
    as (Hsame & embs & _ & Hk); [done|exact Hrun|reflexivity|exact Hrun2|].
  subst st2. exists out, st1, out2. split; [exact Hrun|]. split; [exact Hrun2|].
  destruct (Hk 0 [write; written_by]) as (conv & sg & _ & _ & _ & Hsg & _);
    [reflexivity|].
  exists sg. split; [exact Hsg|]. injection Hrun as _ <-.
  vm_compute in Hsg. injection Hsg as <-. reflexivity.
Defined.

Lemma HANLayer_cache_bounded_witness :
  (size (_cached_coalesced_graph
           (forward_seq (B := backend)
              [(acm 1%positive, author_features);
               (dblp 2%positive, author_features);
               (one_way 3%positive, author_features)] (layer2, [])).1) ≤ 2)%nat.
Proof.
  apply (HANLayer_cache_bounded (B := backend)
           [[write; written_by]; [affiliated; employs]] 4 8 2 (1 # 2) 0 layer2 3
           [(acm 1%positive, author_features);
            (dblp 2%positive, author_features);
            (one_way 3%positive, author_features)] []).
  reflexivity.
Defined.

Lemma HAN_forward_projection_calls_witness :
  ∃ res st',
    HAN_forward (B := backend) (dblp 1%positive) None (two_layers, []) =
      (Ok res, st') ∧
    length st'.2 = 2 * 2 ∧
    Forall (keyed_to (B := backend) (dblp 1%positive)) (layers st'.1).
Proof.
  assert (∃ res st',
            HAN_forward (B := backend) (dblp 1%positive) None (two_layers, []) =
              (Ok res, st')) as (res & st' & Hrun).
  { eexists _, _. reflexivity. }
  destruct (HAN_forward_projection_calls (B := backend) (dblp 1%positive) None
              two_layers [] res st' Hrun) as (_ & Hkeyed & Hcount).
  exists res, st'. split; [exact Hrun|]. split; [|exact Hkeyed].
  apply (Hcount [[write; written_by]; [affiliated; employs]]).
  repeat constructor; done.
Defined.

Lemma HAN_forward_again_witness :
  ∃ res st',
    HAN_forward (B := backend) (dblp 1%positive) None (two_layers, []) =
      (Ok res, st') ∧
    (HAN_forward (B := backend) (acm 1%positive) (Some author_features) st').2 = st'.
Proof.
  assert (∃ res st',
            HAN_forward (B := backend) (dblp 1%positive) None (two_layers, []) =
              (Ok res, st')) as (res & st' & Hrun).
  { eexists _, _. reflexivity. }
  exists res, st'. split; [exact Hrun|].
  apply (HAN_forward_again (B := backend) (dblp 1%positive) None two_layers []
           res st' (acm 1%positive) (Some author_features) Hrun).
  reflexivity.
Defined.

End more_runs.
